(** * psycopg3: conversion of Python queries and parameters to Postgres format

    A shallow embedding of [psycopg3/utils/queries.py]: the placeholder
    tokenizer ([_re_placeholder], [_split_query]), the query rewriter
    ([_query2pg]), the parameter reconciler
    ([_validate_and_reorder_params]) and the [PostgresQuery] object
    ([convert], [dump]), followed by the properties proved about them. *)

From Stdlib Require Import String Ascii List ZArith Lia Bool.
From Stdlib Require Import Sorting.Sorted Sorting.Permutation DecimalString.
From Stdlib Require Import Structures.OrderedTypeEx.
From stdpp Require Import base gmap list strings.

Local Open Scope char_scope.
Local Open Scope list_scope.

(** ** Data model *)

(** Python [bytes]: a sequence of 8-bit characters.  Python [str] values
    (placeholder names, mapping keys) are Rocq strings. *)
Definition bytes := list ascii.

(** [B "..."] is the bytes literal [b"..."]. *)
Definition B (s : string) : bytes := list_ascii_of_string s.

Arguments B : simpl never.

(** Modelled from the spec: [pq.Format], imported by the module and
    declared outside it; the wire format of a parameter, one of Text and
    Binary. *)
Inductive Format := TEXT | BINARY.

#[export] Instance Format_eq_dec : EqDecision Format.
Proof. solve_decision. Defined.

(** Modelled from the spec: [Format(ph[-1:] == b"b")], the format asked
    for by a placeholder; [%b] is binary and [%s] is text. *)
Definition Format_of_bool (flag : bool) : Format := if flag then BINARY else TEXT.

(** [item: Union[int, str]]. *)
Inductive Item :=
| ItemInt (i : nat)
| ItemStr (s : string).

#[export] Instance Item_eq_dec : EqDecision Item.
Proof. solve_decision. Defined.

(** [class QueryPart(NamedTuple)]. *)
Record QueryPart := mkQueryPart { pre : bytes; item : Item; format : Format }.

#[export] Instance QueryPart_eq_dec : EqDecision QueryPart.
Proof. solve_decision. Defined.

(** [type(item)], as compared by [phtype is not type(item)]. *)
Inductive PyType := TyInt | TyStr.

#[export] Instance PyType_eq_dec : EqDecision PyType.
Proof. solve_decision. Defined.

Definition type_of (it : Item) : PyType :=
  match it with ItemInt _ => TyInt | ItemStr _ => TyStr end.

(** Modelled from the spec: the text codec named by the [encoding]
    setting, used as [bytes.decode(encoding)] and [str.encode(encoding)];
    [None] when the codec raises. *)
Record Codec := mkCodec {
  decode : bytes -> option string;
  encode : string -> option bytes
}.

(** The [ascii] codec: bytes and code points below 128 only. *)
Definition is_ascii7 (c : ascii) : bool := (nat_of_ascii c <? 128)%nat.

Definition ascii_codec : Codec :=
  {| decode := fun b =>
       if forallb is_ascii7 b then Some (string_of_list_ascii b) else None;
     encode := fun s =>
       let b := list_ascii_of_string s in
       if forallb is_ascii7 b then Some b else None |}.

(** ** Exceptions

    [errors.ProgrammingError] and the builtin exceptions the module
    raises.  Each constructor of a message type stands for one message of
    the source and carries the values interpolated in it. *)
Inductive ProgrammingMsg :=
| IncompletePlaceholder (fragment : string)
    (* incomplete placeholder: '{fragment}' *)
| IncompletePercent
    (* incomplete placeholder: '%'; if you want to use '%' as an
       operator you can double it up, i.e. use '%%' *)
| OnlySB (ph : string)
    (* only '%s' and '%b' placeholders allowed, got {ph} *)
| MixedPlaceholders
    (* positional and named placeholders cannot be mixed *)
| DifferentFormats (name : string)
    (* placeholder '{name}' cannot have different formats *)
| CountMismatch (placeholders : Z) (parameters : nat)
    (* the query has {placeholders} placeholders but {parameters}
       parameters were passed *)
| ParameterMissing (names : list string).
    (* query parameter missing: {', '.join(names)} *)

Inductive TypeMsg :=
| QueryNotStrOrBytes (tyname : string)
    (* the query should be str or bytes, got {tyname} instead *)
| NamedRequireMapping
    (* named placeholders require a mapping of parameters *)
| PositionalRequireSequence
    (* positional placeholders (%s) require a sequence of parameters *)
| ParamsNotSeqOrMapping (tyname : string).
    (* query parameters should be a sequence or a mapping, got {tyname} *)

Inductive exn :=
| ProgrammingError (msg : ProgrammingMsg)
| TypeError (msg : TypeMsg)
| UnicodeError
| IndexError
| AssertionError
| AttributeError
| ExternalError (tag : string).

(** A computation that returns or raises. *)
Inductive result (A : Type) :=
| Ok (a : A)
| Raise (e : exn).

Arguments Ok {A} a.
Arguments Raise {A} e.

Definition bind {A C : Type} (r : result A) (k : A -> result C) : result C :=
  match r with
  | Ok a => k a
  | Raise e => Raise e
  end.

#[export] Instance result_bind : MBind result := fun A C k r => bind r k.
#[export] Instance result_ret : MRet result := @Ok.

(** ** The placeholder pattern [_re_placeholder] *)

(** A match object: [span(0)], [group(0)], [group(1)]. *)
Record Match := mkMatch {
  m_start : nat;
  m_end : nat;
  group0 : bytes;
  group1 : option bytes
}.

(** [.] of a pattern compiled without DOTALL: any byte but a newline. *)
Definition dot (c : ascii) : bool := negb (c =? "010").

(** [[^)]+], greedy: the longest run of bytes other than [)], and the rest. *)
Fixpoint span_not_paren (s : bytes) : bytes * bytes :=
  match s with
  | [] => ([], [])
  | c :: s' =>
      if c =? ")" then ([], s)
      else let '(run, rest) := span_not_paren s' in (c :: run, rest)
  end.

(** First alternative, after the [%]: [\( ([^)]+) \) .]; returns the name
    and the format byte. *)
Definition match_named (s : bytes) : option (bytes * ascii) :=
  match s with
  | c :: s1 =>
      if c =? "(" then
        match span_not_paren s1 with
        | (n :: name, c1 :: f :: _) =>
            if (c1 =? ")") && dot f then Some (n :: name, f) else None
        | _ => None
        end
      else None
  | [] => None
  end.

(** The pattern tried at the head of [s]: [group(0)] and [group(1)]. *)
Definition match_at (s : bytes) : option (bytes * option bytes) :=
  match s with
  | c :: s1 =>
      if c =? "%" then
        match match_named s1 with
        | Some (name, f) => Some ("%" :: "(" :: name ++ [")"; f], Some name)
        | None =>
            match s1 with
            | c1 :: _ => if dot c1 then Some (["%"; c1], None) else None
            | [] => None
            end
        end
      else None
  | [] => None
  end.

(** [_re_placeholder.finditer]: the non-overlapping matches, left to
    right.  [pos] is the offset of [s] in the query; [skip] counts the
    bytes of the last match still to pass over. *)
Fixpoint finditer_from (skip pos : nat) (s : bytes) : list Match :=
  match s with
  | [] => []
  | _ :: s' =>
      match skip with
      | S k => finditer_from k (S pos) s'
      | O =>
          match match_at s with
          | Some (g0, g1) =>
              {| m_start := pos; m_end := pos + length g0;
                 group0 := g0; group1 := g1 |}
              :: finditer_from (length g0 - 1) (S pos) s'
          | None => finditer_from 0 (S pos) s'
          end
      end
  end.

Definition finditer (query : bytes) : list Match := finditer_from 0 0 query.

(** [query[a:b]] for [0 <= a], [0 <= b]. *)
Definition slice (query : bytes) (a b : nat) : bytes := take (b - a) (drop a query).

(** ** [_split_query] *)

(** First loop: the pairs [(fragment, match)], the last match [None].
    [cur] is the end of the previous match. *)
Fixpoint split_pairs_from (query : bytes) (cur : nat) (ms : list Match)
  : list (bytes * option Match) :=
  match ms with
  | [] => [(drop cur query, None)]
  | m :: ms' =>
      (slice query cur (m_start m), Some m) :: split_pairs_from query (m_end m) ms'
  end.

Definition split_pairs (query : bytes) : list (bytes * option Match) :=
  match finditer query with
  | [] => [(query, None)]
  | ms => split_pairs_from query 0 ms
  end.

(** ASCII whitespace, as [bytes.split()] sees it. *)
Definition is_space (c : ascii) : bool :=
  (c =? " ") || (c =? "009") || (c =? "010") || (c =? "011") || (c =? "012") || (c =? "013").

Fixpoint skip_spaces (s : bytes) : bytes :=
  match s with
  | c :: s' => if is_space c then skip_spaces s' else s
  | [] => []
  end.

Fixpoint until_space (s : bytes) : bytes :=
  match s with
  | c :: s' => if is_space c then [] else c :: until_space s'
  | [] => []
  end.

(** [s.split()[0]]; [IndexError] when [s] holds no word. *)
Definition first_word (s : bytes) : result bytes :=
  match skip_spaces s with
  | [] => Raise IndexError
  | w => Ok (until_space w)
  end.

(** [b.decode(encoding)]. *)
Definition decode_with (enc : Codec) (b : bytes) : result string :=
  match decode enc b with
  | Some s => Ok s
  | None => Raise UnicodeError
  end.

(** [ph[-1:] in b"bs"]. *)
Definition last_in_bs (ph : bytes) : bool :=
  match last ph with
  | Some c => (c =? "b") || (c =? "s")
  | None => true
  end.

(** [ph[-1:] == b"b"]. *)
Definition last_is_b (ph : bytes) : bool :=
  match last ph with
  | Some c => c =? "b"
  | None => false
  end.

Definition bytes_eqb (a b : bytes) : bool := bool_decide (a = b).

(** The three checks on a placeholder other than [%%]. *)
Definition check_placeholder (enc : Codec) (query : bytes) (m : Match) : result unit :=
  let ph := group0 m in
  if bytes_eqb ph (B "%(") then
    w ← first_word (drop (m_start m) query);
    fragment ← decode_with enc w;
    Raise (ProgrammingError (IncompletePlaceholder fragment))
  else if bytes_eqb ph (B "% ") then
    Raise (ProgrammingError IncompletePercent)
  else if negb (last_in_bs ph) then
    got ← decode_with enc ph;
    Raise (ProgrammingError (OnlySB got))
  else Ok tt.

(** [item = i if m.group(1) is None else m.group(1).decode(encoding)]. *)
Definition item_of (enc : Codec) (i : nat) (m : Match) : result Item :=
  match group1 m with
  | None => Ok (ItemInt i)
  | Some name => s ← decode_with enc name; Ok (ItemStr s)
  end.

(** [phtype] is set by the first placeholder and compared with the type
    of every later one. *)
Definition check_phtype (phtype : option PyType) (it : Item) : result PyType :=
  match phtype with
  | None => Ok (type_of it)
  | Some t =>
      if bool_decide (t ≠ type_of it)
      then Raise (ProgrammingError MixedPlaceholders)
      else Ok t
  end.

(** Second loop, "drop the %%, validate".  [(pre, m)] is [parts[i]] and
    [rest] is [parts[i+1:]]; the entries before [i] are never read again. *)
Fixpoint split_loop (enc : Codec) (query : bytes)
    (rest : list (bytes * option Match)) (pre : bytes) (m : option Match)
    (i : nat) (phtype : option PyType) (rv : list QueryPart)
  : result (list QueryPart) :=
  match m with
  | None =>
      (* last part *)
      Ok (rv ++ [mkQueryPart pre (ItemInt 0) TEXT])
  | Some m =>
      let ph := group0 m in
      if bytes_eqb ph (B "%%") then
        (* unescape '%%' to '%' and merge the parts *)
        match rest with
        | [] => Raise IndexError
        | (pre1, m1) :: rest' =>
            split_loop enc query rest' (pre ++ B "%" ++ pre1) m1 i phtype rv
        end
      else
        _ ← check_placeholder enc query m;
        it ← item_of enc i m;
        phtype ← check_phtype phtype it;
        let rv' := rv ++ [mkQueryPart pre it (Format_of_bool (last_is_b ph))] in
        match rest with
        | [] => Ok rv'
        | (pre1, m1) :: rest' =>
            split_loop enc query rest' pre1 m1 (S i) (Some phtype) rv'
        end
  end.

Definition _split_query (query : bytes) (enc : Codec) : result (list QueryPart) :=
  match split_pairs query with
  | [] => Ok []
  | (pre, m) :: rest => split_loop enc query rest pre m 0 None []
  end.

(** ** [_query2pg] *)

(** [b"$%d" % n]. *)
Definition dollar (n : nat) : bytes :=
  "$" :: list_ascii_of_string (NilZero.string_of_uint (Nat.to_uint n)).

Arguments dollar : simpl never.

(** [parts[:-1]] *)
Definition but_last {A : Type} (l : list A) : list A := removelast l.

(** Loop over the anonymous placeholders. *)
Fixpoint int_loop (ps : list QueryPart) (chunks : list bytes) (formats : list Format)
  : result (list bytes * list Format) :=
  match ps with
  | [] => Ok (chunks, formats)
  | part :: ps' =>
      match item part with
      | ItemInt n =>
          int_loop ps' (chunks ++ [pre part] ++ [dollar (n + 1)])
                   (formats ++ [format part])
      | ItemStr _ => Raise AssertionError
      end
  end.

(** Loop over the named placeholders. *)
Fixpoint str_loop (ps : list QueryPart) (seen : gmap string (bytes * Format))
    (order : list string) (chunks : list bytes) (formats : list Format)
  : result (list string * list bytes * list Format) :=
  match ps with
  | [] => Ok (order, chunks, formats)
  | part :: ps' =>
      match item part with
      | ItemStr name =>
          let chunks := chunks ++ [pre part] in
          match seen !! name with
          | None =>
              let ph := dollar (size seen + 1) in
              str_loop ps' (<[name := (ph, format part)]> seen)
                       (order ++ [name]) (chunks ++ [ph]) (formats ++ [format part])
          | Some (ph, fmt) =>
              if bool_decide (fmt ≠ format part) then
                Raise (ProgrammingError (DifferentFormats name))
              else str_loop ps' seen order (chunks ++ [ph]) formats
          end
      | ItemInt _ => Raise AssertionError
      end
  end.

(** The [query] parameter of [_query2pg], [Union[bytes, str]]. *)
Inductive StrOrBytes :=
| Str (s : string)
| Bytes (b : bytes).

(** [if isinstance(query, str): query = query.encode(encoding)].  The
    test that follows in [_query2pg], [not isinstance(query, bytes)], is
    false for every value of the parameter's type. *)
Definition encode_query (query : StrOrBytes) (enc : Codec) : result bytes :=
  match query with
  | Str s =>
      match encode enc s with
      | Some b => Ok b
      | None => Raise UnicodeError
      end
  | Bytes b => Ok b
  end.

(** [_query2pg]; the function is pure and [lru_cache] only spares
    calls, so the cache is left out. *)
Definition _query2pg (query : StrOrBytes) (enc : Codec)
  : result (bytes * list Format * option (list string) * list QueryPart) :=
  query ← encode_query query enc;
  parts ← _split_query query enc;
  match parts with
  | [] => Raise IndexError
  | part0 :: _ =>
      '(order, chunks, formats) ←
        match item part0 with
        | ItemInt _ =>
            '(chunks, formats) ← int_loop (but_last parts) [] [];
            Ok (None, chunks, formats)
        | ItemStr _ =>
            '(order, chunks, formats) ← str_loop (but_last parts) ∅ [] [] [];
            Ok (Some order, chunks, formats)
        end;
      (* last part *)
      let chunks := chunks ++ [pre (List.last parts (mkQueryPart [] (ItemInt 0) TEXT))] in
      Ok (concat chunks, formats, order, parts)
  end.

(** ** [_validate_and_reorder_params] *)

(** [sorted] on [str]: insertion in the order of the code points. *)
Fixpoint insert_sorted (x : string) (l : list string) : list string :=
  match l with
  | [] => [x]
  | y :: l' => if String.leb x y then x :: l else y :: insert_sorted x l'
  end.

Definition sorted (l : list string) : list string := foldr insert_sorted [] l.

Section Session.

(** Python objects passed as parameter values, other than [None]; a
    parameter is [None] or such an object. *)
Context {V : Type}.

(** The [vars] argument: a [Sequence] that is neither [bytes] nor [str], a
    [Mapping], or anything else (given by its type name; [bytes] and [str]
    fall here). *)
Inductive Params :=
| PSeq (xs : list (option V))
| PMap (kv : gmap string (option V))
| POther (tyname : string).

(** [[vars[item] for item in order]], [None] on the first [KeyError]. *)
Fixpoint lookup_all (kv : gmap string (option V)) (order : list string)
  : option (list (option V)) :=
  match order with
  | [] => Some []
  | name :: order' =>
      match kv !! name with
      | Some v =>
          match lookup_all kv order' with
          | Some vs => Some (v :: vs)
          | None => None
          end
      | None => None
      end
  end.

(** [isinstance(parts[0].item, int)] and [isinstance(parts[0][1], str)];
    [IndexError] on an empty list. *)
Definition first_item (parts : list QueryPart) : result Item :=
  match parts with
  | [] => Raise IndexError
  | part0 :: _ => Ok (item part0)
  end.

Definition is_int (it : Item) : bool := bool_decide (type_of it = TyInt).
Definition is_str (it : Item) : bool := bool_decide (type_of it = TyStr).

Definition _validate_and_reorder_params (parts : list QueryPart) (vars : Params)
    (order : option (list string)) : result (list (option V)) :=
  match vars with
  | PSeq xs =>
      if bool_decide (Z.of_nat (length xs) ≠ (Z.of_nat (length parts) - 1)%Z) then
        Raise (ProgrammingError
                 (CountMismatch (Z.of_nat (length parts) - 1) (length xs)))
      else
        match xs with
        | [] => Ok xs
        | _ :: _ =>
            it ← first_item parts;
            if negb (is_int it) then Raise (TypeError NamedRequireMapping)
            else Ok xs
        end
  | PMap kv =>
      _ ← (if bool_decide (kv ≠ ∅) && bool_decide (1 < length parts) then
             it ← first_item parts;
             if negb (is_str it) then Raise (TypeError PositionalRequireSequence)
             else Ok tt
           else Ok tt);
      let order := default [] order in
      match lookup_all kv order with
      | Some vs => Ok vs
      | None =>
          Raise (ProgrammingError
                   (ParameterMissing
                      (sorted (filter (λ i, kv !! i = None) order))))
      end
  | POther ty => Raise (TypeError (ParamsNotSeqOrMapping ty))
  end.

(** ** [PostgresQuery] *)

Definition TEXT_OID : Z := 25.
Definition UNKNOWN_OID : Z := 705.

(** Modelled from the spec: the serializer that [get_dumper] returns,
    used as [dumper.dump(param)] and [dumper.oid]; [dump] may raise. *)
Record Dumper := mkDumper {
  dumper_dump : V -> result bytes;
  dumper_oid : Z
}.

(** Modelled from the spec: the [Transformer] a query object is bound
    to, used as [self._tx.encoding] and [self._tx.get_dumper(param,
    format)]; [get_dumper] may raise. *)
Record Transformer := mkTransformer {
  encoding : Codec;
  get_dumper : V -> Format -> result Dumper
}.

(** The attributes of a [PostgresQuery]; [_parts] is [None] until the
    first assignment creates the attribute. *)
Record PostgresQuery := mkPostgresQuery {
  query : bytes;
  params : option (list (option bytes));
  types : option (list Z);
  formats : option (list Format);
  _order : option (list string);
  _parts : option (list QueryPart)
}.

(** [__init__] *)
Definition init : PostgresQuery :=
  {| query := []; params := None; types := None; formats := None;
     _order := None; _parts := None |}.

Definition set_params (v : option (list (option bytes))) (self : PostgresQuery) :=
  {| query := query self; params := v; types := types self;
     formats := formats self; _order := _order self; _parts := _parts self |}.

Definition set_types (v : option (list Z)) (self : PostgresQuery) :=
  {| query := query self; params := params self; types := v;
     formats := formats self; _order := _order self; _parts := _parts self |}.

(** Loop of [dump] when [self.types is None]: appends to [self.params]
    and to [self.types], which are returned as they stand when the loop
    ends or raises. *)
Fixpoint dump_loop_types (tx : Transformer) (fmts : list Format)
    (ps : list (option V)) (i : nat)
    (out : list (option bytes)) (tys : list Z)
  : list (option bytes) * list Z * result unit :=
  match ps with
  | [] => (out, tys, Ok tt)
  | None :: ps' =>
      dump_loop_types tx fmts ps' (S i) (out ++ [None]) (tys ++ [UNKNOWN_OID])
  | Some param :: ps' =>
      match fmts !! i with
      | None => (out, tys, Raise IndexError)
      | Some fmt =>
          match get_dumper tx param fmt with
          | Raise e => (out, tys, Raise e)
          | Ok dumper =>
              match dumper_dump dumper param with
              | Raise e => (out, tys, Raise e)
              | Ok b =>
                  dump_loop_types tx fmts ps' (S i)
                    (out ++ [Some b]) (tys ++ [dumper_oid dumper])
              end
          end
      end
  end.

(** Loop of [dump] when [self.types] is already set: appends to
    [self.params] only. *)
Fixpoint dump_loop (tx : Transformer) (fmts : list Format)
    (ps : list (option V)) (i : nat) (out : list (option bytes))
  : list (option bytes) * result unit :=
  match ps with
  | [] => (out, Ok tt)
  | None :: ps' => dump_loop tx fmts ps' (S i) (out ++ [None])
  | Some param :: ps' =>
      match fmts !! i with
      | None => (out, Raise IndexError)
      | Some fmt =>
          match get_dumper tx param fmt with
          | Raise e => (out, Raise e)
          | Ok dumper =>
              match dumper_dump dumper param with
              | Raise e => (out, Raise e)
              | Ok b => dump_loop tx fmts ps' (S i) (out ++ [Some b])
              end
          end
      end
  end.

(** [PostgresQuery.dump]: the object after the call, and how the call
    ended. *)
Definition dump (tx : Transformer) (self : PostgresQuery) (vars : option Params)
  : PostgresQuery * result unit :=
  match vars with
  | Some vars =>
      match _parts self with
      | None => (self, Raise AttributeError)
      | Some parts =>
          match _validate_and_reorder_params parts vars (_order self) with
          | Raise e => (self, Raise e)
          | Ok ps =>
              let self := set_params (Some []) self in
              match formats self with
              | None => (self, Raise AssertionError)
              | Some fmts =>
                  match types self with
                  | None =>
                      let '(out, tys, r) := dump_loop_types tx fmts ps 0 [] [] in
                      (set_types (Some tys) (set_params (Some out) self), r)
                  | Some _ =>
                      let '(out, r) := dump_loop tx fmts ps 0 [] in
                      (set_params (Some out) self, r)
                  end
              end
          end
      end
  | None => (set_types None (set_params None self), Ok tt)
  end.

(** Modelled from the spec: the [query] argument of [convert],
    [Query = Union[str, bytes, Composable]]; a [Composable], declared in
    [sql], is given by the text that its [as_string] renders. *)
Inductive Query :=
| Plain (q : StrOrBytes)
| Composable (as_string : string).

(** [PostgresQuery.convert] *)
Definition convert (tx : Transformer) (self : PostgresQuery)
    (q : Query) (vars : option Params) : PostgresQuery * result unit :=
  let q := match q with Composable text => Str text | Plain q => q end in
  match vars with
  | Some _ =>
      match _query2pg q (encoding tx) with
      | Raise e => (self, Raise e)
      | Ok (rewritten, fmts, order, parts) =>
          dump tx
            {| query := rewritten; params := params self; types := types self;
               formats := Some fmts; _order := order; _parts := Some parts |}
            vars
      end
  | None =>
      match encode_query q (encoding tx) with
      | Raise e => (self, Raise e)
      | Ok b =>
          dump tx
            {| query := b; params := params self; types := types self;
               formats := None; _order := None; _parts := _parts self |}
            vars
      end
  end.

End Session.

Arguments Params V : clear implicits.
Arguments Dumper V : clear implicits.
Arguments Transformer V : clear implicits.

(** ** Vocabulary of the properties *)

(** A match of the pattern that is the escape [%%]. *)
Definition is_escape (m : Match) : bool := bytes_eqb (group0 m) (B "%%").

(** The placeholder occurrences of a query: the matches of the pattern
    other than [%%], in textual order. *)
Definition placeholders (query : bytes) : list Match :=
  filter (λ m, is_escape m = false) (finditer query).

(** The matches that the second loop of [_split_query] goes through when
    it starts at [(pre, m)] followed by [rest]. *)
Fixpoint matches_of (rest : list (bytes * option Match)) (m : option Match)
  : list Match :=
  match m with
  | None => []
  | Some x =>
      x :: match rest with
           | [] => []
           | (_, m1) :: rest' => matches_of rest' m1
           end
  end.

(** The last pair, and only the last, is without match. *)
Fixpoint terminated (rest : list (bytes * option Match)) (m : option Match) : Prop :=
  match m with
  | None => rest = []
  | Some _ =>
      match rest with
      | [] => False
      | (_, m1) :: rest' => terminated rest' m1
      end
  end.

(** The literal text held by the pairs, every [%%] counted as one [%]. *)
Definition literal_of_match (m : option Match) : bytes :=
  match m with
  | Some x => if is_escape x then B "%" else []
  | None => []
  end.

Definition literal_text (query : bytes) : bytes :=
  concat (map (λ p : bytes * option Match, p.1 ++ literal_of_match p.2)
              (split_pairs query)).

(** Whether a placeholder is anonymous or named. *)
Definition kind_of (m : Match) : PyType :=
  match group1 m with None => TyInt | Some _ => TyStr end.

(** The format a placeholder asks for. *)
Definition format_of (m : Match) : Format := Format_of_bool (last_is_b (group0 m)).

(** A placeholder that [_split_query] accepts on its own: its last byte
    is [s] or [b] and its name, if any, can be decoded. *)
Definition well_formed (enc : Codec) (m : Match) : Prop :=
  last_in_bs (group0 m) = true ∧
  ∀ name, group1 m = Some name → is_Some (decode enc name).

(** The part made from the placeholder [m] met as the [i]-th one. *)
Definition part_for (enc : Codec) (i : nat) (m : Match) (p : QueryPart) : Prop :=
  item_of enc i m = Ok (item p) ∧ format p = format_of m.

(** Parts made from placeholders met as the [i]-th, [i+1]-th, ... *)
Inductive parts_for (enc : Codec) : nat → list Match → list QueryPart → Prop :=
| parts_for_nil i : parts_for enc i [] []
| parts_for_cons i m ms p ps :
    part_for enc i m p → parts_for enc (S i) ms ps →
    parts_for enc i (m :: ms) (p :: ps).

(** All the parts hold an item of the type [t]. *)
Definition all_kind (t : PyType) (ps : list QueryPart) : Prop :=
  Forall (λ p, type_of (item p) = t) ps.

(** The terminal part that closes every parsed query. *)
Definition terminal (pre : bytes) : QueryPart := mkQueryPart pre (ItemInt 0) TEXT.

(** Every [%] of a literal text doubled. *)
Fixpoint escape (s : bytes) : bytes :=
  match s with
  | [] => []
  | c :: s' => if c =? "%" then "%" :: "%" :: escape s' else c :: escape s'
  end.

(** The distinct elements of a list, in the order of their first
    occurrence. *)
Fixpoint first_occurrences (l : list string) : list string :=
  match l with
  | [] => []
  | x :: l' => x :: filter (λ y, y ≠ x) (first_occurrences l')
  end.

(** The position of the first [x] in [l]. *)
Fixpoint index_of (x : string) (l : list string) : nat :=
  match l with
  | [] => 0
  | y :: l' => if decide (y = x) then 0 else S (index_of x l')
  end.

(** The name of a named part. *)
Definition name_of (p : QueryPart) : string :=
  match item p with ItemStr s => s | ItemInt _ => EmptyString end.

(** The format of the first part named [x]. *)
Definition first_format (x : string) (ps : list QueryPart) : Format :=
  match list_find (λ p, name_of p = x) ps with
  | Some (_, p) => format p
  | None => TEXT
  end.

(** A query as its author writes it: literal text, anonymous
    placeholders and named placeholders, each placeholder text or
    binary. *)
Inductive Segment :=
| Lit (s : bytes)
| Anon (binary : bool)
| Named (name : bytes) (binary : bool).

Definition format_char (binary : bool) : ascii := if binary then "b" else "s".

(** The segments written out in the placeholder syntax: every [%] of a
    literal doubled, [%s] or [%b], [%(name)s] or [%(name)b]. *)
Definition render_segment (g : Segment) : bytes :=
  match g with
  | Lit s => escape s
  | Anon binary => ["%"; format_char binary]
  | Named name binary => "%" :: "(" :: name ++ [")"; format_char binary]
  end.

Definition render (segs : list Segment) : bytes := concat (map render_segment segs).

(** The parts expected from segments: the literal text met since the
    last placeholder, as written by the author, goes before the next
    placeholder or into the terminal part; [lit] is the text pending and
    [i] the number of placeholders met. *)
Fixpoint parts_of (enc : Codec) (lit : bytes) (i : nat) (segs : list Segment)
  : list QueryPart :=
  match segs with
  | [] => [terminal lit]
  | Lit s :: segs' => parts_of enc (lit ++ s) i segs'
  | Anon binary :: segs' =>
      mkQueryPart lit (ItemInt i) (Format_of_bool binary) :: parts_of enc [] (S i) segs'
  | Named name binary :: segs' =>
      mkQueryPart lit (ItemStr (default EmptyString (decode enc name)))
                  (Format_of_bool binary)
      :: parts_of enc [] (S i) segs'
  end.

(** A segment that can be written and read back in a query whose
    placeholders are of the kind [t]: a name is not empty, holds no [)]
    and can be decoded. *)
Definition valid_segment (enc : Codec) (t : PyType) (g : Segment) : Prop :=
  match g with
  | Lit _ => True
  | Anon _ => t = TyInt
  | Named name _ =>
      t = TyStr ∧ name ≠ [] ∧ (")" ∉ name) ∧ is_Some (decode enc name)
  end.

(** The second loop started on a list of pairs, the fragment of the
    first pair preceded by [carry]. *)
Definition run_pairs (enc : Codec) (query carry : bytes)
    (pairs : list (bytes * option Match)) (i : nat) (ph : option PyType)
    (rv : list QueryPart) : result (list QueryPart) :=
  match pairs with
  | [] => Ok rv
  | (pre, m) :: rest => split_loop enc query rest (carry ++ pre) m i ph rv
  end.

(** A text in which the pattern matches nowhere. *)
Definition matchless (tail : bytes) : Prop := ∀ pos, finditer_from 0 pos tail = [].


(** The rewritten text of named parts: each name numbered by its place
    in [order]. *)
Fixpoint named_text (order : list string) (ps : list QueryPart) : bytes :=
  match ps with
  | [] => []
  | p :: ps' => pre p ++ dollar (S (index_of (name_of p) order)) ++ named_text order ps'
  end.

(** The state of the loop over named placeholders: every name met so
    far is in [order] and bound in [seen] to the marker of its place. *)
Definition assigned (seen : gmap string (bytes * Format)) (order : list string) : Prop :=
  size seen = length order ∧
  (∀ x, x ∈ order ↔ is_Some (seen !! x)) ∧
  (∀ x ph f, seen !! x = Some (ph, f) → ph = dollar (S (index_of x order))).

(** No name is asked for in two formats. *)
Definition consistent (ps : list QueryPart) : Prop :=
  ∀ p1 p2, p1 ∈ ps → p2 ∈ ps → name_of p1 = name_of p2 → format p1 = format p2.

(** The decoded name of a named placeholder. *)
Definition decoded_name (enc : Codec) (m : Match) : option string :=
  group1 m ≫= decode enc.

(** How one parameter is dumped: [None] gives no bytes and the unknown
    type; a value gives the bytes and the type of the dumper found for it
    and for the format of its place. *)
Definition dumped_as {V : Type} (tx : Transformer V) (fmts : list Format)
    (k : nat) (p : option V) (b : option bytes) (ty : Z) : Prop :=
  match p with
  | None => b = None ∧ ty = UNKNOWN_OID
  | Some v =>
      ∃ fmt d bs,
        fmts !! k = Some fmt ∧ get_dumper tx v fmt = Ok d ∧
        dumper_dump d v = Ok bs ∧ b = Some bs ∧ ty = dumper_oid d
  end.

(** The object after a run of [dump] calls with parameters, each call
    made whether the one before returned or raised. *)
Definition dump_each {V : Type} (tx : Transformer V) (self : PostgresQuery)
    (calls : list (Params V)) : PostgresQuery :=
  fold_left (λ s vars, (dump tx s (Some vars)).1) calls self.

(** A transformer for the examples: integers dumped as decimal text
    under the type 20, or with a [b] in front under the type 21 when the
    format is binary. *)
Definition example_dumper (fmt : Format) : Dumper Z :=
  match fmt with
  | TEXT =>
      {| dumper_dump := λ n, Ok (list_ascii_of_string
                                   (NilZero.string_of_int (Z.to_int n)));
         dumper_oid := 20 |}
  | BINARY =>
      {| dumper_dump := λ n, Ok ("b" :: list_ascii_of_string
                                          (NilZero.string_of_int (Z.to_int n)));
         dumper_oid := 21 |}
  end.

Definition example_tx : Transformer Z :=
  {| encoding := ascii_codec; get_dumper := λ _ fmt, Ok (example_dumper fmt) |}.

(** The object after [convert("select %s, %s", (1, None))]. *)
Definition example_session : PostgresQuery :=
  (convert example_tx init (Plain (Str "select %s, %s"))
           (Some (PSeq [Some 1%Z; None]))).1.

(** [convert] renders a [Composable] before anything else. *)
Definition rendered (q : Query) : StrOrBytes :=
  match q with Composable text => Str text | Plain q => q end.

(** The bytes of the query that a pair of the first loop stands for:
    the fragment, then the match. *)
Definition piece (p : bytes * option Match) : bytes :=
  p.1 ++ from_option group0 [] p.2.

(** Matches laid out in the query from [cur] on: each one starts at or
    after the end of the one before, spans the bytes it holds, and is what
    the pattern gives where it starts. *)
Fixpoint matches_in (query : bytes) (cur : nat) (ms : list Match) : Prop :=
  match ms with
  | [] => True
  | m :: ms' =>
      cur ≤ m_start m ∧
      m_end m = m_start m + length (group0 m) ∧
      match_at (drop (m_start m) query) = Some (group0 m, group1 m) ∧
      (∃ rest, drop (m_start m) query = group0 m ++ rest) ∧
      matches_in query (m_end m) ms'
  end.

(** The exceptions that tell the caller about the query or the
    parameters, as opposed to those of a broken invariant of the module
    ([IndexError], [AssertionError], [AttributeError]). *)
Definition caller_error (e : exn) : Prop :=
  match e with
  | ProgrammingError _ | TypeError _ | UnicodeError => True
  | IndexError | AssertionError | AttributeError | ExternalError _ => False
  end.

(** The exceptions that come from the dumpers of [tx]. *)
Definition from_dumper {V : Type} (tx : Transformer V) (e : exn) : Prop :=
  (∃ v fmt, get_dumper tx v fmt = Raise e) ∨
  (∃ v fmt d, get_dumper tx v fmt = Ok d ∧ dumper_dump d v = Raise e).


(** A transformer for the examples that has no dumper for any value. *)
Definition failing_tx : Transformer Z :=
  {| encoding := ascii_codec;
     get_dumper := λ _ _, Raise (ExternalError "no dumper") |}.


(** Every [%] of the text is its last byte or stands before a newline. *)
Fixpoint lone_percents (t : bytes) : bool :=
  match t with
  | [] => true
  | c :: t' =>
      (if c =? "%" then
         match t' with
         | [] => true
         | c' :: _ => c' =? "010"
         end
       else true) && lone_percents t'
  end.

(** Evaluate the placeholders of the concrete query of the goal. *)
Ltac eval_placeholders :=
  match goal with
  | |- context [placeholders ?q] =>
      let l := eval vm_compute in (placeholders q) in
      change (placeholders q) with l
  end.

(** ** The second loop of [_split_query] *)

Lemma bytes_eqb_true a b : bytes_eqb a b = true ↔ a = b.
Proof. unfold bytes_eqb. apply bool_decide_eq_true. Qed.

Lemma bytes_eqb_false a b : bytes_eqb a b = false ↔ a ≠ b.
Proof. unfold bytes_eqb. apply bool_decide_eq_false. Qed.

Lemma bind_Ok {A C} (r : result A) (k : A → result C) (c : C) :
  (r ≫= k) = Ok c ↔ ∃ a, r = Ok a ∧ k a = Ok c.
Proof.
  destruct r as [a|e]; simpl.
  - split; [eauto | intros (a' & [= <-] & H); exact H].
  - split; [discriminate | intros (a' & [=] & _)].
Qed.

(** The accumulator [rv] is only ever appended to. *)
Lemma split_loop_acc enc q rest : ∀ pre m i ph rv,
  split_loop enc q rest pre m i ph rv =
  match split_loop enc q rest pre m i ph [] with
  | Ok new => Ok (rv ++ new)
  | Raise e => Raise e
  end.
Proof.
  induction rest as [|[pre1 m1] rest IH]; intros pre m i ph rv.
  - destruct m as [m|]; simpl; [|done].
    destruct (bytes_eqb _ _); [done|].
    destruct (check_placeholder enc q m); simpl; [|done].
    destruct (item_of enc i m); simpl; [|done].
    destruct (check_phtype ph a0); simpl; done.
  - destruct m as [m|]; simpl; [|done].
    destruct (bytes_eqb _ _); [apply IH|].
    destruct (check_placeholder enc q m); simpl; [|done].
    destruct (item_of enc i m); simpl; [|done].
    destruct (check_phtype ph a0); simpl; [|done].
    rewrite (IH _ _ _ _ (rv ++ _)), (IH _ _ _ _ [_]).
    destruct (split_loop enc q rest pre1 m1 (S i) (Some a1) []); [|done].
    by rewrite <- app_assoc.
Qed.

Lemma check_phtype_Ok ph it t :
  check_phtype ph it = Ok t ↔ t = type_of it ∧ ∀ t', ph = Some t' → t' = t.
Proof.
  unfold check_phtype. destruct ph as [t0|].
  - case_bool_decide as Hd.
    + split; [discriminate|]. intros [-> H]. destruct Hd. by apply H.
    + split.
      * intros [= <-]. split; [done|]. by intros t' [= <-].
      * intros [-> H]. by rewrite (H t0 eq_refl).
  - split; [intros [= <-]; split; [done|discriminate] | by intros [-> _]].
Qed.

Lemma check_placeholder_Ok enc q m :
  check_placeholder enc q m = Ok tt ↔ last_in_bs (group0 m) = true.
Proof.
  unfold check_placeholder.
  destruct (bytes_eqb (group0 m) (B "%(")) eqn:E1.
  { apply bytes_eqb_true in E1. rewrite E1. split; [|discriminate].
    destruct (first_word _); simpl; [|discriminate].
    destruct (decode_with enc a); simpl; discriminate. }
  destruct (bytes_eqb (group0 m) (B "% ")) eqn:E2.
  { apply bytes_eqb_true in E2. rewrite E2. split; discriminate. }
  destruct (last_in_bs (group0 m)); simpl; [done|].
  split; [|discriminate].
  destruct (decode_with enc (group0 m)); simpl; discriminate.
Qed.

Lemma item_of_Ok enc i m it :
  item_of enc i m = Ok it ↔
  match group1 m with
  | None => it = ItemInt i
  | Some name => ∃ s, decode enc name = Some s ∧ it = ItemStr s
  end.
Proof.
  unfold item_of. destruct (group1 m) as [name|].
  - unfold decode_with. destruct (decode enc name) as [s|]; simpl.
    + split; [intros [= <-]; eauto | intros (s' & [= <-] & ->); done].
    + split; [discriminate | intros (s' & [=] & _)].
  - split; congruence.
Qed.

Lemma item_of_kind enc i m it : item_of enc i m = Ok it → type_of it = kind_of m.
Proof.
  rewrite item_of_Ok. unfold kind_of. destruct (group1 m).
  - by intros (s & _ & ->).
  - by intros ->.
Qed.

(** One turn of the loop on a pair that holds a match. *)
Lemma split_loop_Some enc q rest pre m i ph parts :
  split_loop enc q rest pre (Some m) i ph [] = Ok parts →
  (is_escape m = true ∧
   ∃ pre1 m1 rest', rest = (pre1, m1) :: rest' ∧
     split_loop enc q rest' (pre ++ B "%" ++ pre1) m1 i ph [] = Ok parts)
  ∨
  (is_escape m = false ∧
   ∃ it t, last_in_bs (group0 m) = true ∧ item_of enc i m = Ok it ∧
     check_phtype ph it = Ok t ∧
     ((rest = [] ∧ parts = [mkQueryPart pre it (format_of m)]) ∨
      ∃ pre1 m1 rest' new, rest = (pre1, m1) :: rest' ∧
        split_loop enc q rest' pre1 m1 (S i) (Some t) [] = Ok new ∧
        parts = mkQueryPart pre it (format_of m) :: new)).
Proof.
  destruct rest as [|[pre1 m1] rest']; simpl; fold (is_escape m);
    destruct (is_escape m); intros H; try done.
  - right. split; [done|].
    apply bind_Ok in H as ([] & Hc & H). apply check_placeholder_Ok in Hc.
    apply bind_Ok in H as (it & Hit & H).
    apply bind_Ok in H as (t & Ht & H).
    exists it, t. split_and!; try done.
    left. by injection H as <-.
  - left. split; [done|]. eauto.
  - right. split; [done|].
    apply bind_Ok in H as ([] & Hc & H). apply check_placeholder_Ok in Hc.
    apply bind_Ok in H as (it & Hit & H).
    apply bind_Ok in H as (t & Ht & H).
    exists it, t. split_and!; try done.
    + right. rewrite split_loop_acc in H.
      destruct (split_loop enc q rest' pre1 m1 (S i) (Some t) []) as [new|] eqn:E;
        [|done].
      injection H as <-. by exists pre1, m1, rest', new.
Qed.

(** What a successful run of the loop returns: one part for each
    placeholder, in order, all of one kind, then the terminal part. *)
Lemma split_loop_parts enc q rest : ∀ pre m i ph parts,
  terminated rest m →
  split_loop enc q rest pre m i ph [] = Ok parts →
  ∃ nonterm lastpre t,
    parts = nonterm ++ [terminal lastpre] ∧
    parts_for enc i (filter (λ m, is_escape m = false) (matches_of rest m)) nonterm ∧
    Forall (well_formed enc) (filter (λ m, is_escape m = false) (matches_of rest m)) ∧
    Forall (λ m, kind_of m = t) (filter (λ m, is_escape m = false) (matches_of rest m)) ∧
    all_kind t nonterm ∧ (∀ t', ph = Some t' → t' = t).
Proof.
  induction rest as [|[pre1 m1] rest IH]; intros pre m i ph parts Hterm Hrun.
  - destruct m as [m|]; [done|]. injection Hrun as <-.
    exists [], pre, (default TyInt ph). split_and!; try done; try constructor.
    intros t' ->. done.
  - destruct m as [m|].
    2:{ done. }
    apply split_loop_Some in Hrun as [[He Hrun]|[He Hrun]].
    + destruct Hrun as (pre1' & m1' & rest' & [= <- <- <-] & Hrun).
      apply IH in Hrun as (nonterm & lastpre & t & H); [|done].
      exists nonterm, lastpre, t. simpl matches_of.
      rewrite filter_cons_False; [done|]. by rewrite He.
    + destruct Hrun as (it & t & Hbs & Hit & Ht & [[[=] _]|Hrun]).
      destruct Hrun as (pre1' & m1' & rest' & new & [= <- <- <-] & Hrun & ->).
      apply IH in Hrun as (nonterm & lastpre & t1 & -> & Hp & Hwf & Hk & Hall & Hph);
        [|done].
      apply check_phtype_Ok in Ht as [-> Ht].
      pose proof (Hph _ eq_refl) as <-.
      exists (mkQueryPart pre it (format_of m) :: nonterm), lastpre, (type_of it).
      simpl matches_of. rewrite filter_cons_True; [|done].
      split_and!; try done.
      * constructor; [done|done].
      * constructor; [|done]. split; [done|].
        intros name Hname. apply item_of_Ok in Hit. rewrite Hname in Hit.
        destruct Hit as (s & -> & _). eauto.
      * constructor; [|done]. symmetry. by eapply item_of_kind.
      * constructor; done.
Qed.

Lemma split_loop_escape enc q pre1 m1 rest pre m i ph rv :
  is_escape m = true →
  split_loop enc q ((pre1, m1) :: rest) pre (Some m) i ph rv =
  split_loop enc q rest (pre ++ B "%" ++ pre1) m1 i ph rv.
Proof. simpl. unfold is_escape. by intros ->. Qed.

Lemma split_loop_placeholder enc q pre1 m1 rest pre m i ph it t :
  is_escape m = false → last_in_bs (group0 m) = true →
  item_of enc i m = Ok it → check_phtype ph it = Ok t →
  split_loop enc q ((pre1, m1) :: rest) pre (Some m) i ph [] =
  match split_loop enc q rest pre1 m1 (S i) (Some t) [] with
  | Ok new => Ok (mkQueryPart pre it (format_of m) :: new)
  | Raise e => Raise e
  end.
Proof.
  intros He Hbs Hit Ht. simpl. unfold is_escape in He. rewrite He.
  rewrite (proj2 (check_placeholder_Ok enc q m) Hbs), Hit. simpl.
  rewrite Ht. simpl. by rewrite split_loop_acc.
Qed.

Lemma well_formed_item enc i m :
  well_formed enc m → ∃ it, item_of enc i m = Ok it ∧ type_of it = kind_of m.
Proof.
  intros [_ Hdec]. unfold item_of, kind_of.
  destruct (group1 m) as [name|]; [|by eauto].
  destruct (Hdec name eq_refl) as [s Hs].
  exists (ItemStr s). unfold decode_with. by rewrite Hs.
Qed.

(** The loop returns whenever the placeholders are well formed and of
    one kind. *)
Lemma split_loop_total enc q rest : ∀ pre m i ph t,
  terminated rest m →
  Forall (well_formed enc) (filter (λ m, is_escape m = false) (matches_of rest m)) →
  Forall (λ m, kind_of m = t) (filter (λ m, is_escape m = false) (matches_of rest m)) →
  (∀ t', ph = Some t' → t' = t) →
  ∃ parts, split_loop enc q rest pre m i ph [] = Ok parts.
Proof.
  induction rest as [|[pre1 m1] rest IH]; intros pre m i ph t Hterm Hwf Hk Hph.
  - destruct m as [m|]; [done|]. simpl. eauto.
  - destruct m as [m|]; [|done].
    simpl matches_of in Hwf, Hk. destruct (is_escape m) eqn:He.
    + rewrite split_loop_escape by done.
      rewrite filter_cons_False in Hwf, Hk by (by rewrite He).
      by eapply IH.
    + rewrite filter_cons_True in Hwf, Hk by done.
      apply Forall_cons in Hwf as [Hm Hwf]. apply Forall_cons in Hk as [Hkm Hk].
      destruct (well_formed_item enc i m Hm) as (it & Hit & Hty).
      assert (check_phtype ph it = Ok t) as Ht.
      { apply check_phtype_Ok. split; [congruence|done]. }
      erewrite split_loop_placeholder; [|done|apply Hm|done|done].
      destruct (IH pre1 m1 (S i) (Some t) t) as [new ->]; try done.
      * by intros t' [= <-].
      * eauto.
Qed.



(** The text of the parts is the literal text of the pairs. *)
Lemma split_loop_literal enc q rest : ∀ pre0 m i ph parts,
  terminated rest m →
  split_loop enc q rest pre0 m i ph [] = Ok parts →
  concat (map pre parts) =
  pre0 ++ literal_of_match m ++
    concat (map (λ p : bytes * option Match, p.1 ++ literal_of_match p.2) rest).
Proof.
  induction rest as [|[pre1 m1] rest IH]; intros pre0 m i ph parts Hterm Hrun.
  - destruct m as [m|]; [done|]. injection Hrun as <-. simpl. by rewrite !app_nil_r.
  - destruct m as [m|]; [|done].
    apply split_loop_Some in Hrun as [[He Hrun]|[He Hrun]].
    + destruct Hrun as (pre1' & m1' & rest' & [= <- <- <-] & Hrun).
      apply IH in Hrun; [|done]. rewrite Hrun. simpl. rewrite He.
      by rewrite <- !app_assoc.
    + destruct Hrun as (it & t & Hbs & Hit & Ht & [[[=] _]|Hrun]).
      destruct Hrun as (pre1' & m1' & rest' & new & [= <- <- <-] & Hrun & ->).
      apply IH in Hrun; [|done]. simpl. rewrite Hrun, He. simpl.
      by rewrite <- !app_assoc.
Qed.

(** ** The first loop of [_split_query] *)

Lemma split_pairs_from_shape q : ∀ ms cur,
  ∃ pre m rest, split_pairs_from q cur ms = (pre, m) :: rest ∧
    terminated rest m ∧ matches_of rest m = ms.
Proof.
  induction ms as [|m ms IH]; intros cur; simpl.
  - by exists (drop cur q), None, [].
  - destruct (IH (m_end m)) as (pre1 & m1 & rest & -> & Hterm & Hms).
    exists (slice q cur (m_start m)), (Some m), ((pre1, m1) :: rest).
    simpl. by rewrite Hms.
Qed.

Lemma split_pairs_shape q :
  ∃ pre m rest, split_pairs q = (pre, m) :: rest ∧
    terminated rest m ∧ matches_of rest m = finditer q.
Proof.
  unfold split_pairs. destruct (finditer q) as [|m ms] eqn:E.
  - by exists q, None, [].
  - apply split_pairs_from_shape.
Qed.

(** ** [_split_query] as a whole *)

Lemma split_query_parts q enc parts :
  _split_query q enc = Ok parts →
  ∃ nonterm lastpre t,
    parts = nonterm ++ [terminal lastpre] ∧
    parts_for enc 0 (placeholders q) nonterm ∧
    Forall (well_formed enc) (placeholders q) ∧
    Forall (λ m, kind_of m = t) (placeholders q) ∧
    all_kind t nonterm.
Proof.
  unfold _split_query, placeholders.
  destruct (split_pairs_shape q) as (pre & m & rest & -> & Hterm & <-).
  intros Hrun.
  destruct (split_loop_parts _ _ _ _ _ _ _ _ Hterm Hrun)
    as (nonterm & lastpre & t & H1 & H2 & H3 & H4 & H5 & _).
  by exists nonterm, lastpre, t.
Qed.

Lemma split_query_total q enc t :
  Forall (well_formed enc) (placeholders q) →
  Forall (λ m, kind_of m = t) (placeholders q) →
  ∃ parts, _split_query q enc = Ok parts.
Proof.
  unfold _split_query, placeholders.
  destruct (split_pairs_shape q) as (pre & m & rest & -> & Hterm & <-).
  intros Hwf Hk. eapply split_loop_total; try done.
Qed.


Lemma split_query_literal q enc parts :
  _split_query q enc = Ok parts →
  concat (map pre parts) = literal_text q.
Proof.
  unfold _split_query, literal_text.
  destruct (split_pairs_shape q) as (pre & m & rest & -> & Hterm & _).
  intros Hrun. rewrite (split_loop_literal _ _ _ _ _ _ _ _ Hterm Hrun).
  simpl. by rewrite <- app_assoc.
Qed.

Lemma parts_for_length enc i ms ps : parts_for enc i ms ps → length ps = length ms.
Proof. induction 1; simpl; congruence. Qed.


(** ** Escaped literal text through the tokenizer *)

Lemma split_pairs_eq q : split_pairs q = split_pairs_from q 0 (finditer q).
Proof. unfold split_pairs. by destruct (finditer q). Qed.

Lemma split_query_run q enc :
  _split_query q enc = run_pairs enc q [] (split_pairs_from q 0 (finditer q)) 0 None [].
Proof.
  unfold _split_query, run_pairs. rewrite split_pairs_eq.
  by destruct (split_pairs_from q 0 (finditer q)) as [|[pre m] rest].
Qed.

Lemma finditer_from_escape pos rest :
  finditer_from 0 pos ("%" :: "%" :: rest) =
  mkMatch pos (pos + 2) (B "%%") None :: finditer_from 0 (S (S pos)) rest.
Proof. done. Qed.

Lemma finditer_from_literal pos c rest :
  c ≠ "%" → finditer_from 0 pos (c :: rest) = finditer_from 0 (S pos) rest.
Proof.
  intros Hc. simpl. apply Ascii.eqb_neq in Hc. by rewrite Hc.
Qed.

Lemma slice_prefix (done rest : bytes) cur :
  cur ≤ length done → slice (done ++ rest) cur (length done) = drop cur done.
Proof.
  intros Hcur. unfold slice. rewrite drop_app_le by done.
  rewrite take_app_le by (rewrite length_drop; lia).
  apply take_ge. rewrite length_drop. lia.
Qed.

(** An escaped literal followed by a text without match is one terminal
    part: the literal itself, then that text. *)
Lemma run_pairs_escape enc s : ∀ done tail cur carry i ph rv,
  cur ≤ length done → matchless tail →
  run_pairs enc (done ++ escape s ++ tail) carry
    (split_pairs_from (done ++ escape s ++ tail) cur
       (finditer_from 0 (length done) (escape s ++ tail))) i ph rv
  = Ok (rv ++ [terminal (carry ++ drop cur done ++ s ++ tail)]).
Proof.
  induction s as [|c s IH]; intros done tail cur carry i ph rv Hcur Htail.
  - simpl. rewrite Htail. simpl. by rewrite drop_app_le.
  - simpl escape. destruct (c =? "%") eqn:Hc.
    + apply Ascii.eqb_eq in Hc as ->. cbn [app].
      rewrite finditer_from_escape. simpl split_pairs_from.
      specialize (IH (done ++ B "%%") tail (length done + 2)
                    (carry ++ drop cur done ++ B "%") i ph rv).
      rewrite <- app_assoc in IH. change (B "%%" ++ ?x) with ("%" :: "%" :: x) in IH.
      rewrite length_app in IH. change (length (B "%%")) with 2 in IH.
      replace (S (S (length done))) with (length done + 2) by lia.
      rewrite (drop_ge (done ++ B "%%")) in IH by (rewrite length_app; simpl; lia).
      destruct (split_pairs_from_shape (done ++ "%" :: "%" :: escape s ++ tail)
                  (finditer_from 0 (length done + 2) (escape s ++ tail))
                  (length done + 2)) as (pre1 & m1 & rest & E & _ & _).
      rewrite E in *. unfold run_pairs in *. rewrite split_loop_escape by done.
      rewrite slice_prefix by done.
      replace ((carry ++ drop cur done) ++ B "%" ++ pre1)
        with ((carry ++ drop cur done ++ B "%") ++ pre1)
        by (by rewrite <- !app_assoc).
      rewrite IH by (done || lia). do 4 f_equal.
      by rewrite <- !app_assoc.
    + apply Ascii.eqb_neq in Hc. cbn [app].
      rewrite finditer_from_literal by done.
      specialize (IH (done ++ [c]) tail cur carry i ph rv).
      rewrite <- app_assoc in IH. cbn [app] in IH.
      rewrite length_app in IH. simpl length in IH.
      replace (S (length done)) with (length done + 1) by lia.
      rewrite IH by (done || lia).
      rewrite drop_app_le by done. by rewrite <- !app_assoc.
Qed.

Lemma split_query_escape enc s tail :
  matchless tail → _split_query (escape s ++ tail) enc = Ok [terminal (s ++ tail)].
Proof.
  intros Htail. rewrite split_query_run.
  exact (run_pairs_escape enc s [] tail 0 [] 0 None [] (Nat.le_refl 0) Htail).
Qed.

(** ** The loops of [_query2pg] *)

Lemma parts_for_int enc i m p :
  part_for enc i m p → kind_of m = TyInt → item p = ItemInt i.
Proof.
  intros [Hit _] Hk. apply item_of_Ok in Hit. unfold kind_of in Hk.
  by destruct (group1 m).
Qed.


Lemma query2pg_of_parts q enc parts :
  _split_query q enc = Ok parts →
  _query2pg (Bytes q) enc =
  match parts with
  | [] => Raise IndexError
  | part0 :: _ =>
      match
        match item part0 with
        | ItemInt _ =>
            match int_loop (but_last parts) [] [] with
            | Ok (chunks, fmts) => Ok (None, chunks, fmts)
            | Raise e => Raise e
            end
        | ItemStr _ =>
            match str_loop (but_last parts) ∅ [] [] [] with
            | Ok (order, chunks, fmts) => Ok (Some order, chunks, fmts)
            | Raise e => Raise e
            end
        end
      with
      | Ok (order, chunks, fmts) =>
          Ok (concat (chunks ++ [pre (List.last parts (terminal []))]),
              fmts, order, parts)
      | Raise e => Raise e
      end
  end.
Proof.
  intros H. unfold _query2pg. simpl. rewrite H. simpl.
  destruct parts as [|part0 parts']; [done|].
  destruct (item part0).
  - destruct (int_loop _ _ _) as [[chunks fmts]|]; done.
  - destruct (str_loop _ _ _ _ _) as [[[order chunks] fmts]|]; done.
Qed.





(** ** Names in the order of their first occurrence *)

Lemma index_of_app_l x l l' : x ∈ l → index_of x (l ++ l') = index_of x l.
Proof.
  induction l as [|y l IH]; intros Hx; [by apply elem_of_nil in Hx|].
  simpl. destruct (decide (y = x)); [done|].
  apply elem_of_cons in Hx as [->|Hx]; [done|]. by rewrite IH.
Qed.

Lemma index_of_app_r x l l' : x ∉ l → index_of x (l ++ x :: l') = length l.
Proof.
  induction l as [|y l IH]; intros Hx; simpl.
  - by rewrite decide_True.
  - apply not_elem_of_cons in Hx as [Hne Hx].
    rewrite decide_False by done. by rewrite IH.
Qed.

Lemma first_format_head p ps : first_format (name_of p) (p :: ps) = format p.
Proof. unfold first_format. simpl. by rewrite decide_True. Qed.

Lemma first_format_tail y p ps :
  y ≠ name_of p → first_format y (p :: ps) = first_format y ps.
Proof.
  intros Hy. unfold first_format. simpl. rewrite decide_False by done.
  by destruct (list_find _ ps) as [[k p']|].
Qed.

Lemma filter_not_in_snoc (order : list string) x (l : list string) :
  filter (λ y, y ∉ order ++ [x]) l = filter (λ y, y ∉ order) (filter (λ y, y ≠ x) l).
Proof.
  rewrite list_filter_filter. apply list_filter_iff. intros y.
  rewrite not_elem_of_app, not_elem_of_cons. split.
  - intros [H1 [H2 _]]. done.
  - intros [H1 H2]. split_and!; [done|done|apply not_elem_of_nil].
Qed.

Lemma filter_not_in_known (order : list string) x (l : list string) :
  x ∈ order →
  filter (λ y, y ∉ order) (filter (λ y, y ≠ x) l) = filter (λ y, y ∉ order) l.
Proof.
  intros Hx. rewrite list_filter_filter. apply list_filter_iff. intros y.
  split; [by intros [H _]|]. intros H. split; [done|]. by intros ->.
Qed.

Lemma named_item p : type_of (item p) = TyStr → item p = ItemStr (name_of p).
Proof. unfold name_of. by destruct (item p). Qed.

Lemma assigned_insert seen order x fmt :
  assigned seen order → seen !! x = None →
  assigned (<[x := (dollar (size seen + 1), fmt)]> seen) (order ++ [x]).
Proof.
  intros (Hsize & Hdom & Hph) Hx.
  assert (x ∉ order) as Hnot.
  { rewrite Hdom, Hx. by intros [? ?]. }
  split_and!.
  - rewrite map_size_insert_None by done. rewrite length_app. simpl. lia.
  - intros y. rewrite elem_of_app, list_elem_of_singleton.
    destruct (decide (y = x)) as [->|Hne].
    + rewrite lookup_insert_eq. split; [eauto|by right].
    + rewrite lookup_insert_ne by done. rewrite <- Hdom. split; [|by left].
      by intros [?|?].
  - intros y ph f. destruct (decide (y = x)) as [->|Hne].
    + rewrite lookup_insert_eq. intros [= <- <-].
      rewrite index_of_app_r by done. by rewrite Hsize, Nat.add_1_r.
    + rewrite lookup_insert_ne by done. intros Hy.
      rewrite index_of_app_l; [by eapply Hph|].
      apply Hdom. by rewrite Hy.
Qed.

(** What the loop over named placeholders returns. *)
Lemma str_loop_spec : ∀ ps seen order chunks fmts order' chunks' fmts',
  all_kind TyStr ps → assigned seen order →
  str_loop ps seen order chunks fmts = Ok (order', chunks', fmts') →
  order' = order ++ filter (λ x, x ∉ order) (first_occurrences (map name_of ps)) ∧
  fmts' = fmts ++ map (λ x, first_format x ps)
                      (filter (λ x, x ∉ order) (first_occurrences (map name_of ps))) ∧
  concat chunks' = concat chunks ++ named_text order' ps.
Proof.
  induction ps as [|p ps IH];
    intros seen order chunks fmts order' chunks' fmts' Hkind Hinv Hrun.
  - injection Hrun as <- <- <-. simpl. by rewrite !app_nil_r.
  - apply Forall_cons in Hkind as [Hp Hkind].
    simpl in Hrun. rewrite (named_item p Hp) in Hrun.
    set (x := name_of p) in *.
    destruct (seen !! x) as [[ph f]|] eqn:Hx.
    + case_bool_decide; [done|].
      assert (x ∈ order) as Hin.
      { destruct Hinv as (_ & Hdom & _). apply Hdom. by rewrite Hx. }
      apply IH in Hrun as (-> & -> & Hc); [|done..].
      assert (filter (λ y, y ∉ order) (first_occurrences (map name_of (p :: ps)))
              = filter (λ y, y ∉ order) (first_occurrences (map name_of ps))) as Hnew.
      { simpl. fold x. rewrite filter_cons_False by (by intros H'; apply H').
        by apply filter_not_in_known. }
      rewrite Hnew. split_and!.
      * done.
      * f_equal. apply map_ext_in. intros y Hy.
        apply list_elem_of_In, list_elem_of_filter in Hy as [Hy _].
        symmetry. apply first_format_tail. fold x. by intros ->.
      * rewrite Hc, !concat_app. simpl. fold x.
        rewrite index_of_app_l by done.
        destruct Hinv as (_ & _ & Hph). rewrite (Hph _ _ _ Hx).
        by rewrite !app_nil_r, <- !app_assoc.
    + assert (x ∉ order) as Hnot.
      { destruct Hinv as (_ & Hdom & _). rewrite Hdom, Hx. by intros [? ?]. }
      apply IH in Hrun as (-> & -> & Hc); [|done|by apply assigned_insert].
      assert (filter (λ y, y ∉ order) (first_occurrences (map name_of (p :: ps)))
              = x :: filter (λ y, y ∉ order ++ [x])
                            (first_occurrences (map name_of ps))) as Hnew.
      { simpl. fold x. rewrite filter_cons_True by done.
        by rewrite filter_not_in_snoc. }
      rewrite Hnew. split_and!.
      * by rewrite <- app_assoc.
      * rewrite <- app_assoc. simpl. f_equal. f_equal; [symmetry; apply first_format_head|].
        apply map_ext_in. intros y Hy.
        apply list_elem_of_In, list_elem_of_filter in Hy as [Hy _].
        symmetry. apply first_format_tail. fold x. intros ->. apply Hy.
        apply elem_of_app. right. by apply list_elem_of_singleton.
      * rewrite Hc, !concat_app. simpl. fold x.
        rewrite <- (app_assoc order [x]). simpl.
        rewrite index_of_app_r by done.
        destruct Hinv as (Hsize & _ & _). rewrite Hsize, Nat.add_1_r.
        by rewrite !app_nil_r, <- !app_assoc.
Qed.

(** The loop over named placeholders returns when no name is asked for
    in two formats. *)
Lemma str_loop_total : ∀ ps seen order chunks fmts,
  all_kind TyStr ps → consistent ps →
  (∀ x ph f, seen !! x = Some (ph, f) →
     ∀ p, p ∈ ps → name_of p = x → format p = f) →
  ∃ r, str_loop ps seen order chunks fmts = Ok r.
Proof.
  induction ps as [|p ps IH]; intros seen order chunks fmts Hkind Hcons Hseen.
  - simpl. eauto.
  - apply Forall_cons in Hkind as [Hp Hkind].
    assert (consistent ps) as Hcons'.
    { intros p1 p2 H1 H2. apply Hcons; by apply elem_of_cons; right. }
    simpl. rewrite (named_item p Hp).
    destruct (seen !! name_of p) as [[ph f]|] eqn:Hx.
    + rewrite bool_decide_eq_false_2.
      * apply IH; [done..|]. intros x ph' f' Hl p' Hp'.
        apply (Hseen x ph' f' Hl). by apply elem_of_cons; right.
      * intros Hne. apply Hne. symmetry.
        apply (Hseen _ _ _ Hx); [by apply elem_of_cons; left|done].
    + apply IH; [done..|]. intros x ph' f' Hl p' Hp' Hname.
      destruct (decide (x = name_of p)) as [->|Hne].
      * rewrite lookup_insert_eq in Hl. injection Hl as <- <-.
        apply Hcons; [by apply elem_of_cons; right|by apply elem_of_cons; left|done].
      * rewrite lookup_insert_ne in Hl by done.
        apply (Hseen x ph' f' Hl); [by apply elem_of_cons; right|done].
Qed.

Lemma assigned_empty : assigned ∅ [].
Proof.
  split_and!.
  - done.
  - intros x. rewrite lookup_empty. split; [by intros ?%elem_of_nil|by intros [? ?]].
  - intros x ph f. by rewrite lookup_empty.
Qed.

Lemma NoDup_first_occurrences l : NoDup (first_occurrences l).
Proof.
  induction l as [|x l IH]; simpl; [constructor|].
  constructor.
  - rewrite list_elem_of_filter. by intros [H _].
  - by apply NoDup_filter.
Qed.

Lemma elem_of_first_occurrences x l : x ∈ first_occurrences l ↔ x ∈ l.
Proof.
  induction l as [|y l IH]; simpl; [done|].
  rewrite !elem_of_cons, list_elem_of_filter, IH.
  destruct (decide (x = y)) as [->|Hne]; [by split; [left|left]|].
  split; [intros [?|[_ ?]]; [done|by right] | intros [?|?]; [done|by right]].
Qed.

Lemma part_for_named enc i m p :
  part_for enc i m p → kind_of m = TyStr →
  decoded_name enc m = Some (name_of p) ∧ type_of (item p) = TyStr.
Proof.
  intros [Hit _] Hk. apply item_of_Ok in Hit. unfold kind_of in Hk.
  unfold decoded_name, name_of. destruct (group1 m) as [name|]; [|done].
  destruct Hit as (s & Hs & ->). simpl. by rewrite Hs.
Qed.

Lemma parts_for_named enc i ms ps :
  parts_for enc i ms ps → Forall (λ m, kind_of m = TyStr) ms →
  Forall2 (λ p m, decoded_name enc m = Some (name_of p) ∧ format p = format_of m)
          ps ms ∧
  all_kind TyStr ps.
Proof.
  induction 1 as [i|i m ms p ps Hp _ IH]; intros Hk.
  - split; constructor.
  - apply Forall_cons in Hk as [Hkm Hk].
    destruct (IH Hk) as (IH1 & IH2).
    destruct (part_for_named _ _ _ _ Hp Hkm) as [Hn Ht].
    split; constructor; try done. split; [done|apply Hp].
Qed.

Lemma named_maps enc ps ms :
  Forall2 (λ p m, decoded_name enc m = Some (name_of p) ∧ format p = format_of m)
          ps ms →
  map (λ p, Some (name_of p)) ps = map (decoded_name enc) ms ∧
  map format ps = map format_of ms.
Proof.
  induction 1 as [|p m ps ms [Hn Hf] _ [IH1 IH2]]; [done|].
  simpl. by rewrite Hn, Hf, IH1, IH2.
Qed.

Lemma consistent_of_placeholders enc ms ps :
  Forall2 (λ p m, decoded_name enc m = Some (name_of p) ∧ format p = format_of m)
          ps ms →
  (∀ m1 m2, m1 ∈ ms → m2 ∈ ms →
     decoded_name enc m1 = decoded_name enc m2 → format_of m1 = format_of m2) →
  consistent ps.
Proof.
  intros HF Hms p1 p2 H1 H2 Hname.
  apply list_elem_of_lookup in H1 as [k1 H1].
  apply list_elem_of_lookup in H2 as [k2 H2].
  destruct (Forall2_lookup_l _ _ _ _ _ HF H1) as (m1 & Hm1 & Hd1 & ->).
  destruct (Forall2_lookup_l _ _ _ _ _ HF H2) as (m2 & Hm2 & Hd2 & ->).
  apply Hms.
  - apply list_elem_of_lookup. eauto.
  - apply list_elem_of_lookup. eauto.
  - congruence.
Qed.

Lemma filter_not_in_nil (l : list string) : filter (λ x, x ∉ []) l = l.
Proof.
  induction l as [|x l IH]; [done|].
  rewrite filter_cons_True by apply not_elem_of_nil. by rewrite IH.
Qed.

Lemma query2pg_named q enc p0 nonterm lastpre :
  _split_query q enc = Ok ((p0 :: nonterm) ++ [terminal lastpre]) →
  all_kind TyStr (p0 :: nonterm) → consistent (p0 :: nonterm) →
  _query2pg (Bytes q) enc =
  Ok (named_text (first_occurrences (map name_of (p0 :: nonterm))) (p0 :: nonterm)
        ++ lastpre,
      map (λ x, first_format x (p0 :: nonterm))
          (first_occurrences (map name_of (p0 :: nonterm))),
      Some (first_occurrences (map name_of (p0 :: nonterm))),
      (p0 :: nonterm) ++ [terminal lastpre]).
Proof.
  intros Hsplit Hkind Hcons. rewrite (query2pg_of_parts _ _ _ Hsplit).
  pose proof (Forall_inv Hkind) as H0. apply named_item in H0.
  cbn [app]. rewrite H0. change (p0 :: nonterm ++ [terminal lastpre])
    with ((p0 :: nonterm) ++ [terminal lastpre]).
  unfold but_last. rewrite removelast_last, last_last.
  destruct (str_loop_total (p0 :: nonterm) ∅ [] [] [] Hkind Hcons) as [[[o c] f] Hrun].
  { intros x ph f. by rewrite lookup_empty. }
  rewrite Hrun.
  destruct (str_loop_spec _ _ _ _ _ _ _ _ Hkind assigned_empty Hrun) as (-> & -> & Hc).
  rewrite concat_app, Hc. cbn [app concat]. rewrite filter_not_in_nil.
  by rewrite app_nil_r.
Qed.

(** C1 — In a query whose placeholders are all named, well formed, and
    never ask for one name in two formats, parsing and rewriting succeed;
    [name_order] is the list of the distinct names in the order of their
    first occurrence; every occurrence of a name, first or repeated, is
    rewritten to the marker [$n] with [n] the place (from 1) of the name
    in [name_order]; the format list has one entry per distinct name, the
    format of its first occurrence.  So [select %(a)s, %(a)s, %(b)b]
    becomes [select $1, $1, $2] with the formats [TEXT; BINARY] and the
    name order [a; b]. *)
Theorem named_placeholders_first_occurrence :
  (∀ q enc,
     placeholders q ≠ [] →
     Forall (λ m, kind_of m = TyStr ∧ well_formed enc m) (placeholders q) →
     (∀ m1 m2, m1 ∈ placeholders q → m2 ∈ placeholders q →
        decoded_name enc m1 = decoded_name enc m2 → format_of m1 = format_of m2) →
     ∃ nonterm lastpre names,
       _split_query q enc = Ok (nonterm ++ [terminal lastpre]) ∧
       map (λ p, Some (name_of p)) nonterm = map (decoded_name enc) (placeholders q) ∧
       map format nonterm = map format_of (placeholders q) ∧
       names = first_occurrences (map name_of nonterm) ∧
       NoDup names ∧
       (∀ x, x ∈ names ↔ x ∈ map name_of nonterm) ∧
       _query2pg (Bytes q) enc =
         Ok (named_text names nonterm ++ lastpre,
             map (λ x, first_format x nonterm) names,
             Some names,
             nonterm ++ [terminal lastpre])) ∧
  _query2pg (Str "select %(a)s, %(a)s, %(b)b") ascii_codec =
    Ok (B "select $1, $1, $2", [TEXT; BINARY], Some ["a"; "b"]%string,
        [mkQueryPart (B "select ") (ItemStr "a") TEXT;
         mkQueryPart (B ", ") (ItemStr "a") TEXT;
         mkQueryPart (B ", ") (ItemStr "b") BINARY;
         terminal []]).
Proof.
  split; [|by vm_compute].
  intros q enc Hne Hall Hfmt.
  assert (Forall (well_formed enc) (placeholders q)) as Hwf.
  { eapply Forall_impl; [exact Hall|]. by intros m [_ H]. }
  assert (Forall (λ m, kind_of m = TyStr) (placeholders q)) as Hk.
  { eapply Forall_impl; [exact Hall|]. by intros m [H _]. }
  destruct (split_query_total q enc TyStr Hwf Hk) as [parts Hsplit].
  destruct (split_query_parts _ _ _ Hsplit)
    as (nonterm & lastpre & t & -> & Hparts & _ & _ & _).
  destruct (parts_for_named _ _ _ _ Hparts Hk) as [HF Hkind].
  destruct (named_maps _ _ _ HF) as [Hnames Hformats].
  pose proof (consistent_of_placeholders _ _ _ HF Hfmt) as Hcons.
  exists nonterm, lastpre, (first_occurrences (map name_of nonterm)).
  split_and!; try done.
  - apply NoDup_first_occurrences.
  - intros x. apply elem_of_first_occurrences.
  - destruct nonterm as [|p0 nonterm].
    + apply parts_for_length in Hparts. by destruct (placeholders q).
    + by apply query2pg_named.
Qed.

(** The theorem at a query that repeats a name. *)
Lemma named_placeholders_first_occurrence_witness :
  ∃ nonterm lastpre names,
    _split_query (B "%(x)b, 5%%, %(y)s and %(x)b") ascii_codec
      = Ok (nonterm ++ [terminal lastpre]) ∧
    names = first_occurrences (map name_of nonterm) ∧
    _query2pg (Bytes (B "%(x)b, 5%%, %(y)s and %(x)b")) ascii_codec =
      Ok (named_text names nonterm ++ lastpre,
          map (λ x, first_format x nonterm) names, Some names,
          nonterm ++ [terminal lastpre]).
Proof.
  destruct (proj1 named_placeholders_first_occurrence
              (B "%(x)b, 5%%, %(y)s and %(x)b") ascii_codec)
    as (nonterm & lastpre & names & H1 & _ & _ & H2 & _ & _ & H3).
  - by vm_compute.
  - eval_placeholders.
    repeat constructor; intros name [= <-]; by vm_compute; eauto.
  - eval_placeholders. intros m1 m2 H1 H2.
    repeat (apply elem_of_cons in H1 as [->|H1]);
      repeat (apply elem_of_cons in H2 as [->|H2]);
      try (by apply elem_of_nil in H1); try (by apply elem_of_nil in H2);
      by vm_compute.
  - exists nonterm, lastpre, names. by split_and!.
Defined.


Lemma query2pg_split_raise q enc e :
  _split_query q enc = Raise e → _query2pg (Bytes q) enc = Raise e.
Proof. intros H. unfold _query2pg. simpl. by rewrite H. Qed.



(** ** Written queries through the tokenizer *)

Lemma finditer_from_skip (a : bytes) : ∀ pos rest,
  finditer_from (length a) pos (a ++ rest) = finditer_from 0 (pos + length a) rest.
Proof.
  induction a as [|c a IH]; intros pos rest; simpl.
  - by rewrite Nat.add_0_r.
  - rewrite IH. f_equal. lia.
Qed.

Lemma finditer_from_match c (s' : bytes) g0 g1 pos :
  match_at (c :: s') = Some (g0, g1) →
  finditer_from 0 pos (c :: s') =
  mkMatch pos (pos + length g0) g0 g1 :: finditer_from (length g0 - 1) (S pos) s'.
Proof. intros H. cbn [finditer_from]. by rewrite H. Qed.

Lemma format_char_dot binary : dot (format_char binary) = true.
Proof. by destruct binary. Qed.

Lemma match_at_anon binary rest :
  match_at ("%" :: format_char binary :: rest)
  = Some (["%"; format_char binary], None).
Proof. by destruct binary. Qed.

Lemma span_not_paren_name (name rest : bytes) :
  ")" ∉ name → span_not_paren (name ++ ")" :: rest) = (name, ")" :: rest).
Proof.
  induction name as [|c name IH]; intros Hnot; [done|].
  apply not_elem_of_cons in Hnot as [Hc Hnot]. simpl.
  assert ((c =? ")") = false) as -> by (apply Ascii.eqb_neq; congruence).
  by rewrite IH.
Qed.

Lemma match_at_named name binary rest :
  name ≠ [] → ")" ∉ name →
  match_at ("%" :: "(" :: name ++ ")" :: format_char binary :: rest)
  = Some ("%" :: "(" :: name ++ [")"; format_char binary], Some name).
Proof.
  intros Hne Hnot. unfold match_at, match_named.
  rewrite !Ascii.eqb_refl. rewrite span_not_paren_name by done.
  destruct name as [|n name]; [done|].
  by rewrite Ascii.eqb_refl, format_char_dot.
Qed.

Lemma finditer_from_anon pos binary rest :
  finditer_from 0 pos ("%" :: format_char binary :: rest) =
  mkMatch pos (pos + 2) ["%"; format_char binary] None
  :: finditer_from 0 (pos + 2) rest.
Proof.
  rewrite (finditer_from_match _ _ _ _ _ (match_at_anon binary rest)).
  simpl. do 2 f_equal. lia.
Qed.

Lemma finditer_from_named pos name binary rest :
  name ≠ [] → ")" ∉ name →
  finditer_from 0 pos ("%" :: "(" :: name ++ ")" :: format_char binary :: rest) =
  mkMatch pos (pos + (length name + 4))
          ("%" :: "(" :: name ++ [")"; format_char binary]) (Some name)
  :: finditer_from 0 (pos + (length name + 4)) rest.
Proof.
  intros Hne Hnot.
  rewrite (finditer_from_match _ _ _ _ _ (match_at_named name binary rest Hne Hnot)).
  assert (length ("%" :: "(" :: name ++ [")"; format_char binary]) = length name + 4)
    as Hlen by (simpl; rewrite length_app; simpl; lia).
  rewrite Hlen. f_equal.
  replace (length name + 4 - 1) with (length ("(" :: name ++ [")"; format_char binary]))
    by (simpl; rewrite length_app; simpl; lia).
  change ("(" :: name ++ ")" :: format_char binary :: rest)
    with (("(" :: name) ++ ")" :: format_char binary :: rest).
  replace (("(" :: name) ++ ")" :: format_char binary :: rest)
    with (("(" :: name ++ [")"; format_char binary]) ++ rest)
    by (simpl; by rewrite <- app_assoc).
  rewrite finditer_from_skip. f_equal. simpl. rewrite length_app. simpl. lia.
Qed.

Lemma run_pairs_on_escape enc q carry cur m ms i ph rv :
  is_escape m = true →
  run_pairs enc q carry (split_pairs_from q cur (m :: ms)) i ph rv =
  run_pairs enc q (carry ++ slice q cur (m_start m) ++ B "%")
    (split_pairs_from q (m_end m) ms) i ph rv.
Proof.
  intros He. simpl split_pairs_from.
  destruct (split_pairs_from_shape q ms (m_end m)) as (pre1 & m1 & rest & -> & _ & _).
  unfold run_pairs. rewrite split_loop_escape by done.
  by rewrite <- !app_assoc.
Qed.

Lemma run_pairs_on_placeholder enc q carry cur m ms i ph rv it t :
  is_escape m = false → last_in_bs (group0 m) = true →
  item_of enc i m = Ok it → check_phtype ph it = Ok t →
  run_pairs enc q carry (split_pairs_from q cur (m :: ms)) i ph rv =
  run_pairs enc q [] (split_pairs_from q (m_end m) ms) (S i) (Some t)
    (rv ++ [mkQueryPart (carry ++ slice q cur (m_start m)) it (format_of m)]).
Proof.
  intros He Hbs Hit Ht. simpl split_pairs_from.
  destruct (split_pairs_from_shape q ms (m_end m)) as (pre1 & m1 & rest & -> & _ & _).
  unfold run_pairs. simpl. unfold is_escape in He. rewrite He.
  rewrite (proj2 (check_placeholder_Ok enc q m) Hbs), Hit. simpl.
  by rewrite Ht.
Qed.

(** A written query, followed by a text in which the pattern matches
    nowhere, is read back as the parts expected from its segments and
    from that text as one more literal; [done] is the text already
    passed, [cur] the end of the last match and [carry] the text merged
    so far into the next part. *)
Lemma run_pairs_segments enc t tail : ∀ segs done cur carry i ph rv,
  matchless tail →
  cur ≤ length done →
  (∀ t', ph = Some t' → t' = t) →
  Forall (valid_segment enc t) segs →
  run_pairs enc (done ++ render segs ++ tail) carry
    (split_pairs_from (done ++ render segs ++ tail) cur
       (finditer_from 0 (length done) (render segs ++ tail))) i ph rv
  = Ok (rv ++ parts_of enc (carry ++ drop cur done) i (segs ++ [Lit tail])).
Proof.
  intros segs done cur carry i ph rv Htail. revert done cur carry i ph rv.
  induction segs as [|g segs IH]; intros done cur carry i ph rv Hcur Hph Hvalid.
  - unfold render. simpl. rewrite Htail. simpl.
    rewrite drop_app_le by done. by rewrite <- !app_assoc.
  - apply Forall_cons in Hvalid as [Hg Hvalid].
    change (render (g :: segs)) with (render_segment g ++ render segs).
    rewrite <- (app_assoc (render_segment g)).
    destruct g as [s|binary|name binary]; simpl render_segment; simpl parts_of.
    + clear Hg. revert done cur carry Hcur.
      induction s as [|c s IHs]; intros done cur carry Hcur.
      * simpl. rewrite app_nil_r. by apply IH.
      * simpl escape. destruct (c =? "%") eqn:Hc.
        -- apply Ascii.eqb_eq in Hc as ->. cbn [app].
           rewrite finditer_from_escape, run_pairs_on_escape by done.
           cbn [m_start m_end]. rewrite slice_prefix by done.
           specialize (IHs (done ++ B "%%") (length done + 2)
                           (carry ++ drop cur done ++ B "%")).
           rewrite <- app_assoc in IHs.
           change (B "%%" ++ ?x) with ("%" :: "%" :: x) in IHs.
           rewrite length_app in IHs. change (length (B "%%")) with 2 in IHs.
           replace (S (S (length done))) with (length done + 2) by lia.
           rewrite IHs by lia. do 2 f_equal.
           rewrite (drop_ge (done ++ B "%%")) by (rewrite length_app; simpl; lia).
           by rewrite app_nil_r, <- !app_assoc.
        -- apply Ascii.eqb_neq in Hc. cbn [app].
           rewrite finditer_from_literal by done.
           specialize (IHs (done ++ [c]) cur carry).
           rewrite <- app_assoc in IHs. cbn [app] in IHs.
           rewrite length_app in IHs. simpl length in IHs.
           replace (S (length done)) with (length done + 1) by lia.
           rewrite IHs by (rewrite ?length_app; simpl; lia). do 2 f_equal.
           rewrite drop_app_le by done. by rewrite <- !app_assoc.
    + simpl in Hg. subst t. cbn [app].
      rewrite finditer_from_anon.
      rewrite (run_pairs_on_placeholder _ _ _ _ _ _ _ _ _ (ItemInt i) TyInt).
      2:{ by destruct binary. }
      2:{ by destruct binary. }
      2:{ done. }
      2:{ apply check_phtype_Ok. split; [done|]. intros t' Ht'. by apply Hph. }
      cbn [m_start m_end]. rewrite slice_prefix by done.
      specialize (IH (done ++ ["%"; format_char binary]) (length done + 2) [] (S i)
                     (Some TyInt)
                     (rv ++ [mkQueryPart (carry ++ drop cur done) (ItemInt i)
                                         (format_of (mkMatch (length done) (length done + 2)
                                                       ["%"; format_char binary] None))])).
      rewrite <- app_assoc in IH. cbn [app] in IH.
      rewrite length_app in IH. simpl length in IH.
      rewrite IH; [| lia | by intros t' [= <-] | done].
      rewrite (drop_ge (done ++ _)) by (rewrite length_app; simpl; lia).
      rewrite <- app_assoc. do 3 f_equal. by destruct binary.
    + simpl in Hg. destruct Hg as (-> & Hne & Hnot & [sname Hdec]). cbn [app].
      rewrite <- app_assoc. cbn [app].
      rewrite finditer_from_named by done.
      rewrite (run_pairs_on_placeholder _ _ _ _ _ _ _ _ _ (ItemStr sname) TyStr).
      2:{ unfold is_escape. apply bytes_eqb_false.
          destruct name as [|n name]; [done|]. by intros [=]. }
      2:{ cbn [group0]. unfold last_in_bs.
          change ("%" :: "(" :: name ++ [")"; format_char binary])
            with (("%" :: "(" :: name) ++ [")"; format_char binary]).
          change ([")"; format_char binary]) with ([")"] ++ [format_char binary]).
          rewrite app_assoc, last_snoc. by destruct binary. }
      2:{ apply item_of_Ok. cbn [group1]. eauto. }
      2:{ apply check_phtype_Ok. split; [done|]. intros t' Ht'. by apply Hph. }
      cbn [m_start m_end]. rewrite slice_prefix by done.
      specialize (IH (done ++ "%" :: "(" :: name ++ [")"; format_char binary])
                     (length done + (length name + 4)) [] (S i) (Some TyStr)
                     (rv ++ [mkQueryPart (carry ++ drop cur done) (ItemStr sname)
                               (format_of (mkMatch (length done)
                                  (length done + (length name + 4))
                                  ("%" :: "(" :: name ++ [")"; format_char binary])
                                  (Some name)))])).
      assert (length (done ++ "%" :: "(" :: name ++ [")"; format_char binary])
              = length done + (length name + 4)) as Hlen.
      { rewrite length_app. simpl. rewrite length_app. simpl. lia. }
      rewrite Hlen in IH.
      rewrite <- app_assoc in IH. cbn [app] in IH.
      rewrite <- app_assoc in IH. cbn [app] in IH.
      etransitivity; [apply IH; [lia | by intros t' [= <-] | done]|].
      rewrite (drop_ge (done ++ _)) by (rewrite Hlen; lia).
      rewrite <- app_assoc. f_equal. f_equal. cbn [app]. f_equal. f_equal.
      * by rewrite Hdec.
      * unfold format_of, last_is_b. cbn [group0].
        change ("%" :: "(" :: name ++ [")"; format_char binary])
          with (("%" :: "(" :: name) ++ [")"; format_char binary]).
        change ([")"; format_char binary]) with ([")"] ++ [format_char binary]).
        rewrite app_assoc, last_snoc. by destruct binary.
Qed.

Lemma parts_of_lit_nil enc : ∀ segs lit i,
  parts_of enc lit i (segs ++ [Lit []]) = parts_of enc lit i segs.
Proof.
  induction segs as [|g segs IH]; intros lit i; simpl.
  - by rewrite app_nil_r.
  - destruct g; by rewrite IH.
Qed.

Lemma split_query_render_tail enc t segs tail :
  matchless tail →
  Forall (valid_segment enc t) segs →
  _split_query (render segs ++ tail) enc = Ok (parts_of enc [] 0 (segs ++ [Lit tail])).
Proof.
  intros Htail Hvalid. rewrite split_query_run.
  by apply (run_pairs_segments enc t tail segs [] 0 [] 0 None []).
Qed.

(** A written query parses into the parts expected from its segments. *)
Lemma split_query_render enc t segs :
  Forall (valid_segment enc t) segs →
  _split_query (render segs) enc = Ok (parts_of enc [] 0 segs).
Proof.
  intros Hvalid.
  pose proof (split_query_render_tail enc t segs [] (λ pos, eq_refl) Hvalid) as H.
  by rewrite app_nil_r, parts_of_lit_nil in H.
Qed.

Lemma matchless_nil : matchless [].
Proof. by intros pos. Qed.

Lemma matchless_percent : matchless (B "%").
Proof. by intros pos. Qed.

Lemma query2pg_terminal q enc lit :
  _split_query q enc = Ok [terminal lit] →
  _query2pg (Bytes q) enc = Ok (lit, [], None, [terminal lit]).
Proof.
  intros H. rewrite (query2pg_of_parts _ _ _ H). simpl. by rewrite app_nil_r.
Qed.

(** C9 — A query written from literal texts and placeholders, every
    [%] of a literal doubled, parses into one part for each placeholder
    and the terminal part; each part holds the literal text written
    since the placeholder before it, with its single [%], and the
    escapes shift no index.  A literal alone is rewritten to itself,
    without placeholder, format or name order.  For every query that
    parses, the text of its parts is the literal text of the query with
    one [%] for each [%%], and the non-terminal parts are as many as the
    matches other than [%%].  So [100%% done] becomes [100% done]. *)
Theorem escaped_percent_is_literal :
  (∀ enc t segs,
     Forall (valid_segment enc t) segs →
     _split_query (render segs) enc = Ok (parts_of enc [] 0 segs)) ∧
  (∀ s enc, _query2pg (Bytes (escape s)) enc = Ok (s, [], None, [terminal s])) ∧
  (∀ q enc parts,
     _split_query q enc = Ok parts →
     concat (map pre parts) = literal_text q ∧
     length (but_last parts) = length (placeholders q)) ∧
  _query2pg (Str "100%% done") ascii_codec =
    Ok (B "100% done", [], None, [terminal (B "100% done")]).
Proof.
  split_and!.
  - intros enc t segs. apply split_query_render.
  - intros s enc. apply query2pg_terminal.
    pose proof (split_query_escape enc s [] matchless_nil) as H.
    by rewrite !app_nil_r in H.
  - intros q enc parts Hsplit. split; [by eapply split_query_literal|].
    destruct (split_query_parts _ _ _ Hsplit)
      as (nonterm & lastpre & t & -> & Hparts & _).
    unfold but_last. rewrite removelast_last. by eapply parts_for_length.
  - by vm_compute.
Qed.

(** The theorem at the query written from [%s], the literal
    [ is 100% of ], [%b] and the literal [, 5%], which is
    [%s is 100%% of %b, 5%%]. *)
Lemma escaped_percent_is_literal_witness :
  render [Anon false; Lit (B " is 100% of "); Anon true; Lit (B ", 5%")]
    = B "%s is 100%% of %b, 5%%" ∧
  _split_query (B "%s is 100%% of %b, 5%%") ascii_codec
    = Ok [mkQueryPart [] (ItemInt 0) TEXT;
          mkQueryPart (B " is 100% of ") (ItemInt 1) BINARY;
          terminal (B ", 5%")] ∧
  concat (map pre [mkQueryPart [] (ItemInt 0) TEXT;
                   mkQueryPart (B " is 100% of ") (ItemInt 1) BINARY;
                   terminal (B ", 5%")])
    = literal_text (B "%s is 100%% of %b, 5%%").
Proof.
  assert (_split_query (B "%s is 100%% of %b, 5%%") ascii_codec
          = Ok [mkQueryPart [] (ItemInt 0) TEXT;
                mkQueryPart (B " is 100% of ") (ItemInt 1) BINARY;
                terminal (B ", 5%")]) as H.
  { apply (proj1 escaped_percent_is_literal ascii_codec TyInt
             [Anon false; Lit (B " is 100% of "); Anon true; Lit (B ", 5%")]).
    repeat constructor. }
  split_and!.
  - by vm_compute.
  - exact H.
  - apply (proj1 (proj2 (proj2 escaped_percent_is_literal)) _ _ _ H).
Defined.

(** C3 — A bare [%] that ends the query is not refused: the pattern
    needs a byte after the [%] and matches nothing there.  After any
    escaped literal text the [%] is kept as one more byte of the
    terminal part: [select 1 %] parses into that text alone, and
    [select %s %] into the part for [%s] and the terminal part [ %]. *)
Theorem trailing_percent_accepted :
  finditer (B "%") = [] ∧
  (∀ s enc, _split_query (escape s ++ B "%") enc = Ok [terminal (s ++ B "%")]) ∧
  _split_query (B "select 1 %") ascii_codec = Ok [terminal (B "select 1 %")] ∧
  _query2pg (Str "select 1 %") ascii_codec =
    Ok (B "select 1 %", [], None, [terminal (B "select 1 %")]) ∧
  _query2pg (Str "select %s %") ascii_codec =
    Ok (B "select $1 %", [TEXT], None,
        [mkQueryPart (B "select ") (ItemInt 0) TEXT; terminal (B " %")]).
Proof.
  split_and!.
  - done.
  - intros s enc. apply split_query_escape, matchless_percent.
  - by vm_compute.
  - by vm_compute.
  - by vm_compute.
Qed.

(** ** [sorted] *)

Lemma leb_spec a b : String.leb a b = true ↔ a = b ∨ String_as_OT.lt a b.
Proof.
  unfold String.leb. destruct (String.compare a b) eqn:E.
  - apply String_as_OT.cmp_eq in E. split; [by left|done].
  - apply String_as_OT.cmp_lt in E. split; [by right|done].
  - split; [done|]. intros [->|Hlt].
    + assert (String.compare b b = Eq) as E' by by apply String_as_OT.cmp_eq.
      congruence.
    + apply String_as_OT.cmp_lt in Hlt. unfold String_as_OT.cmp in Hlt. congruence.
Qed.

Lemma leb_trans a b c :
  String.leb a b = true → String.leb b c = true → String.leb a c = true.
Proof.
  rewrite !leb_spec. intros [->|H1] [->|H2]; eauto.
  right. by eapply String_as_OT.lt_trans.
Qed.

Lemma insert_sorted_perm x l : insert_sorted x l ≡ₚ x :: l.
Proof.
  induction l as [|y l IH]; simpl; [done|].
  destruct (String.leb x y); [done|]. rewrite IH. apply Permutation_swap.
Qed.

Lemma insert_sorted_sorted x l :
  StronglySorted (λ a b, String.leb a b = true) l →
  StronglySorted (λ a b, String.leb a b = true) (insert_sorted x l).
Proof.
  induction 1 as [|y l Hs IH Hall]; simpl.
  - constructor; constructor.
  - destruct (String.leb x y) eqn:E.
    + constructor; [by constructor|]. constructor; [done|].
      eapply Forall_impl; [exact Hall|]. intros z Hz. by eapply leb_trans.
    + constructor; [done|].
      rewrite (insert_sorted_perm x l). constructor; [|done].
      by destruct (String.leb_total x y) as [?|?]; [congruence|].
Qed.

Lemma sorted_perm l : sorted l ≡ₚ l.
Proof.
  induction l as [|x l IH]; simpl; [done|].
  by rewrite insert_sorted_perm, IH.
Qed.

Lemma sorted_sorted l : StronglySorted (λ a b, String.leb a b = true) (sorted l).
Proof.
  induction l as [|x l IH]; simpl; [constructor|]. by apply insert_sorted_sorted.
Qed.

(** ** [_validate_and_reorder_params] *)

Section Reconciler.
Context {V : Type}.
Implicit Types (kv : gmap string (option V)) (xs vs : list (option V)).

Lemma lookup_all_Some kv names vs :
  lookup_all kv names = Some vs ↔ Forall2 (λ x v, kv !! x = Some v) names vs.
Proof.
  revert vs. induction names as [|x names IH]; intros vs; simpl.
  - split; [intros [= <-]; constructor|by intros ->%Forall2_nil_inv_l].
  - destruct (kv !! x) as [v|] eqn:Hx.
    + destruct (lookup_all kv names) as [vs'|].
      * split.
        -- intros [= <-]. constructor; [done|]. by apply IH.
        -- intros (v' & vs'' & Hv & HF & ->)%Forall2_cons_inv_l.
           apply IH in HF. congruence.
      * split; [done|].
        intros (v' & vs'' & Hv & HF & ->)%Forall2_cons_inv_l. by apply IH in HF.
    + split; [done|].
      intros (v' & vs'' & Hv & HF & ->)%Forall2_cons_inv_l. congruence.
Qed.

Lemma lookup_all_None kv names :
  lookup_all kv names = None ↔ Exists (λ x, kv !! x = None) names.
Proof.
  induction names as [|x names IH]; simpl.
  - split; [done|by intros ?%Exists_nil].
  - destruct (kv !! x) as [v|] eqn:Hx.
    + destruct (lookup_all kv names) as [vs'|].
      * split; [done|]. intros [?|H]%Exists_cons; [congruence|]. by apply IH in H.
      * split; [|done]. intros _. apply Exists_cons_tl. by apply IH.
    + split; [|done]. intros _. by apply Exists_cons_hd.
Qed.

Lemma lookup_all_total kv names :
  Forall (λ x, is_Some (kv !! x)) names → ∃ vs, lookup_all kv names = Some vs.
Proof.
  intros Hall. destruct (lookup_all kv names) as [vs|] eqn:E; [eauto|].
  apply lookup_all_None, Exists_exists in E as (x & Hx & Hnone).
  eapply Forall_forall in Hall; [|exact Hx]. rewrite Hnone in Hall.
  by destruct Hall.
Qed.

End Reconciler.

Lemma query2pg_order q enc rq fmts names parts :
  _query2pg q enc = Ok (rq, fmts, Some names, parts) →
  ∃ part0 rest,
    parts = part0 :: rest ∧ type_of (item part0) = TyStr ∧ 1 < length parts.
Proof.
  unfold _query2pg. intros H.
  apply bind_Ok in H as (b & _ & H). apply bind_Ok in H as (parts' & Hsplit & H).
  destruct parts' as [|part0 rest]; [done|].
  apply bind_Ok in H as ([[order chunks] fmts'] & Hloop & H).
  injection H as _ _ -> <-.
  destruct (item part0) eqn:Hitem.
  - apply bind_Ok in Hloop as ([c f] & _ & [=]).
  - exists part0, rest. split_and!; [done|by rewrite Hitem|].
    destruct (split_query_parts _ _ _ Hsplit) as (nonterm & lastpre & t & E & _).
    destruct nonterm as [|p0 nonterm].
    + injection E as -> ->. done.
    + rewrite E, length_app. simpl. lia.
Qed.

Lemma validate_mapping_named {V : Type} part0 rest (kv : gmap string (option V)) order :
  type_of (item part0) = TyStr →
  _validate_and_reorder_params (part0 :: rest) (PMap kv) order =
  match lookup_all kv (default [] order) with
  | Some vs => Ok vs
  | None =>
      Raise (ProgrammingError
               (ParameterMissing
                  (sorted (filter (λ i, kv !! i = None) (default [] order)))))
  end.
Proof.
  intros Hstr. unfold _validate_and_reorder_params.
  destruct (bool_decide (kv ≠ ∅) && bool_decide (1 < length (part0 :: rest))); [|done].
  simpl. unfold is_str. by rewrite bool_decide_eq_true_2.
Qed.

(** C6 — For a query with named placeholders and a mapping of
    parameters: when some name of [name_order] is not a key of the
    mapping, the reconciliation raises one "query parameter missing"
    error that lists exactly the names of [name_order] that are not
    keys, in sorted order; when every name is a key, it returns the
    values of the names, in the order of [name_order]. *)
Theorem mapping_lookup_or_missing :
  ∀ (V : Type) q enc rq fmts names parts (kv : gmap string (option V)),
    _query2pg q enc = Ok (rq, fmts, Some names, parts) →
    (Exists (λ x, kv !! x = None) names →
       ∃ missing,
         _validate_and_reorder_params parts (PMap kv) (Some names)
           = Raise (ProgrammingError (ParameterMissing missing)) ∧
         StronglySorted (λ a b, String.leb a b = true) missing ∧
         missing ≡ₚ filter (λ x, kv !! x = None) names ∧
         (∀ x, x ∈ missing ↔ x ∈ names ∧ kv !! x = None)) ∧
    (Forall (λ x, is_Some (kv !! x)) names →
       ∃ vs,
         _validate_and_reorder_params parts (PMap kv) (Some names) = Ok vs ∧
         Forall2 (λ x v, kv !! x = Some v) names vs).
Proof.
  intros V q enc rq fmts names parts kv Hq.
  destruct (query2pg_order _ _ _ _ _ _ Hq) as (part0 & rest & -> & Hstr & _).
  rewrite (validate_mapping_named _ _ _ _ Hstr). simpl. split.
  - intros Hex. apply lookup_all_None in Hex. rewrite Hex.
    exists (sorted (filter (λ i, kv !! i = None) names)). split_and!.
    + done.
    + apply sorted_sorted.
    + apply sorted_perm.
    + intros x. rewrite (sorted_perm _), list_elem_of_filter.
      split; intros [? ?]; done.
  - intros Hall. destruct (lookup_all_total _ _ Hall) as [vs Hvs].
    rewrite Hvs. exists vs. split; [done|]. by apply lookup_all_Some.
Qed.

(** The theorem at [select %(b)s, %(c)s, %(a)s]: with only [b] given the
    error names [a] and [c], in that order; with all three given the
    values come in the order [b], [c], [a].  And at
    [select %(a)s, %(b)s] with only [a] given the error names [b]. *)
Lemma mapping_lookup_or_missing_witness :
  (∃ missing,
     _validate_and_reorder_params
       [mkQueryPart (B "select ") (ItemStr "b") TEXT;
        mkQueryPart (B ", ") (ItemStr "c") TEXT;
        mkQueryPart (B ", ") (ItemStr "a") TEXT; terminal []]
       (PMap ({[ "b"%string := Some 1%Z ]} : gmap string (option Z)))
       (Some ["b"; "c"; "a"]%string)
     = Raise (ProgrammingError (ParameterMissing missing)) ∧
     missing = ["a"; "c"]%string) ∧
  (∃ vs,
     _validate_and_reorder_params
       [mkQueryPart (B "select ") (ItemStr "b") TEXT;
        mkQueryPart (B ", ") (ItemStr "c") TEXT;
        mkQueryPart (B ", ") (ItemStr "a") TEXT; terminal []]
       (PMap (<[ "a"%string := Some 1%Z ]>
                (<[ "b"%string := Some 2%Z ]>
                   ({[ "c"%string := None ]} : gmap string (option Z)))))
       (Some ["b"; "c"; "a"]%string) = Ok vs ∧
     vs = [Some 2%Z; None; Some 1%Z]) ∧
  _validate_and_reorder_params
    [mkQueryPart (B "select ") (ItemStr "a") TEXT;
     mkQueryPart (B ", ") (ItemStr "b") TEXT; terminal []]
    (PMap ({[ "a"%string := Some 1%Z ]} : gmap string (option Z)))
    (Some ["a"; "b"]%string)
  = Raise (ProgrammingError (ParameterMissing ["b"]%string)).
Proof.
  assert (_query2pg (Str "select %(b)s, %(c)s, %(a)s") ascii_codec =
          Ok (B "select $1, $2, $3", [TEXT; TEXT; TEXT], Some ["b"; "c"; "a"]%string,
              [mkQueryPart (B "select ") (ItemStr "b") TEXT;
               mkQueryPart (B ", ") (ItemStr "c") TEXT;
               mkQueryPart (B ", ") (ItemStr "a") TEXT; terminal []])) as Hq.
  { by vm_compute. }
  split_and!.
  - destruct (proj1 (mapping_lookup_or_missing Z _ _ _ _ _ _
                       ({[ "b"%string := Some 1%Z ]} : gmap string (option Z)) Hq))
      as (missing & Hraise & _).
    { apply Exists_cons_tl, Exists_cons_hd. by vm_compute. }
    exists missing. split; [exact Hraise|].
    vm_compute in Hraise. congruence.
  - destruct (proj2 (mapping_lookup_or_missing Z _ _ _ _ _ _
                       (<[ "a"%string := Some 1%Z ]>
                          (<[ "b"%string := Some 2%Z ]>
                             ({[ "c"%string := None ]} : gmap string (option Z))))
                       Hq))
      as (vs & Hok & _).
    { repeat constructor; by vm_compute; eauto. }
    exists vs. split; [exact Hok|].
    vm_compute in Hok. congruence.
  - by vm_compute.
Defined.

Lemma parsed_length q enc parts :
  _split_query q enc = Ok parts →
  length (but_last parts) = length (placeholders q) ∧
  (Z.of_nat (length parts) - 1)%Z = Z.of_nat (length (but_last parts)).
Proof.
  intros Hsplit.
  destruct (split_query_parts _ _ _ Hsplit) as (nonterm & lastpre & t & -> & Hparts & _).
  unfold but_last. rewrite removelast_last, length_app. simpl.
  split; [by eapply parts_for_length|lia].
Qed.

Lemma parsed_anonymous_first q enc parts :
  _split_query q enc = Ok parts →
  Forall (λ m, kind_of m = TyInt) (placeholders q) →
  ∃ part0 rest, parts = part0 :: rest ∧ item part0 = ItemInt 0.
Proof.
  intros Hsplit Hk.
  destruct (split_query_parts _ _ _ Hsplit) as (nonterm & lastpre & t & -> & Hparts & _).
  destruct nonterm as [|p ps].
  - by exists (terminal lastpre), [].
  - exists p, (ps ++ [terminal lastpre]). split; [done|].
    inversion Hparts as [|i m ms p' ps' Hp Hrest Ei Ems Eps].
    rewrite <- Ems in Hk. apply Forall_cons in Hk as [Hkm _].
    by eapply parts_for_int.
Qed.

(** C8 — For a parsed query, whose non-terminal parts are as many as its
    placeholders, and a sequence of parameters: when the length of the
    sequence is not that number, shorter or longer, the reconciliation
    raises "the query has N placeholders but M parameters were passed";
    when it is that number and the placeholders are anonymous, the
    sequence is returned as it is. *)
Theorem sequence_count_checked :
  ∀ (V : Type) q enc parts (xs : list (option V)) order,
    _split_query q enc = Ok parts →
    length (but_last parts) = length (placeholders q) ∧
    (length xs ≠ length (but_last parts) →
       _validate_and_reorder_params parts (PSeq xs) order
       = Raise (ProgrammingError
                  (CountMismatch (Z.of_nat (length (but_last parts))) (length xs)))) ∧
    (length xs = length (but_last parts) →
       Forall (λ m, kind_of m = TyInt) (placeholders q) →
       _validate_and_reorder_params parts (PSeq xs) order = Ok xs).
Proof.
  intros V q enc parts xs order Hsplit.
  destruct (parsed_length _ _ _ Hsplit) as [Hlen Hz].
  split_and!; [done|..].
  - intros Hne. unfold _validate_and_reorder_params.
    rewrite Hz, bool_decide_eq_true_2; [done|]. lia.
  - intros Heq Hk. unfold _validate_and_reorder_params.
    rewrite Hz, bool_decide_eq_false_2 by lia.
    destruct xs as [|x xs]; [done|].
    destruct (parsed_anonymous_first _ _ _ Hsplit Hk) as (part0 & rest & -> & Hitem).
    simpl. by rewrite Hitem.
Qed.

(** The theorem at [select %s, %s] with the parameters [(1,)],
    [(1, 2, 3)] and [(1, 2)]. *)
Lemma sequence_count_checked_witness :
  _validate_and_reorder_params
    [mkQueryPart (B "select ") (ItemInt 0) TEXT;
     mkQueryPart (B ", ") (ItemInt 1) TEXT; terminal []]
    (PSeq [Some 1%Z]) None
  = Raise (ProgrammingError (CountMismatch 2 1)) ∧
  _validate_and_reorder_params
    [mkQueryPart (B "select ") (ItemInt 0) TEXT;
     mkQueryPart (B ", ") (ItemInt 1) TEXT; terminal []]
    (PSeq [Some 1%Z; Some 2%Z; Some 3%Z]) None
  = Raise (ProgrammingError (CountMismatch 2 3)) ∧
  _validate_and_reorder_params
    [mkQueryPart (B "select ") (ItemInt 0) TEXT;
     mkQueryPart (B ", ") (ItemInt 1) TEXT; terminal []]
    (PSeq [Some 1%Z; Some 2%Z]) None
  = Ok [Some 1%Z; Some 2%Z].
Proof.
  assert (_split_query (B "select %s, %s") ascii_codec =
          Ok [mkQueryPart (B "select ") (ItemInt 0) TEXT;
              mkQueryPart (B ", ") (ItemInt 1) TEXT; terminal []]) as Hq.
  { by vm_compute. }
  split_and!.
  - apply (sequence_count_checked Z _ _ _ [Some 1%Z] None Hq). simpl. lia.
  - apply (sequence_count_checked Z _ _ _ [Some 1%Z; Some 2%Z; Some 3%Z] None Hq).
    simpl. lia.
  - apply (sequence_count_checked Z _ _ _ [Some 1%Z; Some 2%Z] None Hq).
    + done.
    + eval_placeholders. repeat constructor.
Defined.

(** C10 — A query without placeholder parses into its terminal part
    alone, without name order.  Reconciled with a mapping, empty or not,
    it yields the empty parameter list: the test that refuses a mapping
    for positional placeholders needs more than one part.  Reconciled
    with a non-empty sequence it raises "the query has 0 placeholders
    but M parameters were passed". *)
Theorem zero_placeholders_mapping_allowed :
  ∀ (V : Type) q enc,
    placeholders q = [] →
    ∃ rq lit,
      _query2pg (Bytes q) enc = Ok (rq, [], None, [terminal lit]) ∧
      (∀ kv : gmap string (option V),
         _validate_and_reorder_params [terminal lit] (PMap kv) None = Ok []) ∧
      (∀ xs : list (option V), xs ≠ [] →
         _validate_and_reorder_params [terminal lit] (PSeq xs) None
         = Raise (ProgrammingError (CountMismatch 0 (length xs)))).
Proof.
  intros V q enc Hnone.
  destruct (split_query_total q enc TyInt) as [parts Hsplit];
    [by rewrite Hnone..|].
  destruct (split_query_parts _ _ _ Hsplit) as (nonterm & lastpre & t & -> & Hparts & _).
  apply parts_for_length in Hparts. rewrite Hnone in Hparts.
  destruct nonterm; [|done]. simpl in Hsplit.
  exists lastpre, lastpre. split_and!.
  - by apply query2pg_terminal.
  - intros kv. unfold _validate_and_reorder_params. simpl.
    by rewrite andb_false_r.
  - intros xs Hxs. unfold _validate_and_reorder_params. simpl.
    rewrite bool_decide_eq_true_2; [done|]. destruct xs; [done|]. simpl. lia.
Qed.

(** The theorem at [select 1], with the mapping [{"a": 1}] and with the
    sequence [(1,)]. *)
Lemma zero_placeholders_mapping_allowed_witness :
  ∃ rq lit,
    _query2pg (Bytes (B "select 1")) ascii_codec = Ok (rq, [], None, [terminal lit]) ∧
    _validate_and_reorder_params [terminal lit]
      (PMap ({[ "a"%string := Some 1%Z ]} : gmap string (option Z))) None = Ok [] ∧
    _validate_and_reorder_params [terminal lit] (PSeq [Some 1%Z]) None
      = Raise (ProgrammingError (CountMismatch 0 1)).
Proof.
  destruct (zero_placeholders_mapping_allowed Z (B "select 1") ascii_codec)
    as (rq & lit & H1 & H2 & H3).
  - by vm_compute.
  - exists rq, lit. split_and!; [exact H1|apply H2|by apply H3].
Defined.

(** ** [PostgresQuery.dump] *)

Section Dump.
Context {V : Type} (tx : Transformer V).

Lemma dump_loop_types_spec fmts : ∀ ps i out tys out' tys',
  dump_loop_types tx fmts ps i out tys = (out', tys', Ok tt) →
  ∃ new_out new_tys,
    out' = out ++ new_out ∧ tys' = tys ++ new_tys ∧
    length new_out = length ps ∧ length new_tys = length ps ∧
    ∀ k p, ps !! k = Some p →
      ∃ b ty, new_out !! k = Some b ∧ new_tys !! k = Some ty ∧
              dumped_as tx fmts (i + k) p b ty.
Proof.
  induction ps as [|p ps IH]; intros i out tys out' tys' Hrun.
  - injection Hrun as <- <-. exists [], []. by rewrite !app_nil_r.
  - simpl in Hrun. destruct p as [v|].
    + destruct (fmts !! i) as [fmt|] eqn:Hf; [|done].
      destruct (get_dumper tx v fmt) as [d|] eqn:Hd; [|done].
      destruct (dumper_dump d v) as [bs|] eqn:Hb; [|done].
      apply IH in Hrun as (new_out & new_tys & -> & -> & Hl1 & Hl2 & Hk).
      exists (Some bs :: new_out), (dumper_oid d :: new_tys).
      rewrite <- !app_assoc. split_and!; try done; simpl; try lia.
      intros [|k] p Hp; simpl in *.
      * injection Hp as <-. exists (Some bs), (dumper_oid d).
        split_and!; try done. rewrite Nat.add_0_r. by exists fmt, d, bs.
      * destruct (Hk k p Hp) as (b & ty & ? & ? & Hdump).
        exists b, ty. by rewrite <- Nat.add_succ_comm.
    + apply IH in Hrun as (new_out & new_tys & -> & -> & Hl1 & Hl2 & Hk).
      exists (None :: new_out), (UNKNOWN_OID :: new_tys).
      rewrite <- !app_assoc. split_and!; try done; simpl; try lia.
      intros [|k] p Hp; simpl in *.
      * injection Hp as <-. by exists None, UNKNOWN_OID.
      * destruct (Hk k p Hp) as (b & ty & ? & ? & Hdump).
        exists b, ty. by rewrite <- Nat.add_succ_comm.
Qed.

Lemma dump_loop_spec fmts : ∀ ps i out out',
  dump_loop tx fmts ps i out = (out', Ok tt) →
  ∃ new_out,
    out' = out ++ new_out ∧ length new_out = length ps ∧
    ∀ k p, ps !! k = Some p →
      ∃ b ty, new_out !! k = Some b ∧ dumped_as tx fmts (i + k) p b ty.
Proof.
  induction ps as [|p ps IH]; intros i out out' Hrun.
  - injection Hrun as <-. exists []. by rewrite !app_nil_r.
  - simpl in Hrun. destruct p as [v|].
    + destruct (fmts !! i) as [fmt|] eqn:Hf; [|done].
      destruct (get_dumper tx v fmt) as [d|] eqn:Hd; [|done].
      destruct (dumper_dump d v) as [bs|] eqn:Hb; [|done].
      apply IH in Hrun as (new_out & -> & Hl1 & Hk).
      exists (Some bs :: new_out).
      rewrite <- !app_assoc. split_and!; try done; simpl; try lia.
      intros [|k] p Hp; simpl in *.
      * injection Hp as <-. exists (Some bs), (dumper_oid d).
        split_and!; try done. rewrite Nat.add_0_r. by exists fmt, d, bs.
      * destruct (Hk k p Hp) as (b & ty & ? & Hdump).
        exists b, ty. by rewrite <- Nat.add_succ_comm.
    + apply IH in Hrun as (new_out & -> & Hl1 & Hk).
      exists (None :: new_out).
      rewrite <- !app_assoc. split_and!; try done; simpl; try lia.
      intros [|k] p Hp; simpl in *.
      * injection Hp as <-. by exists None, UNKNOWN_OID.
      * destruct (Hk k p Hp) as (b & ty & ? & Hdump).
        exists b, ty. by rewrite <- Nat.add_succ_comm.
Qed.

(** [dump] leaves [types] alone once it is set, whatever the outcome. *)
Lemma dump_keeps_types self vars ts :
  types self = Some ts → types (dump tx self (Some vars)).1 = Some ts.
Proof.
  intros Hts. unfold dump.
  destruct (_parts self) as [parts|]; [|done].
  destruct (_validate_and_reorder_params parts vars (_order self)) as [ps|]; [|done].
  simpl. destruct (formats self) as [fmts|]; [|done].
  rewrite Hts. by destruct (dump_loop tx fmts ps 0 []) as [out r].
Qed.

(** A [dump] that returns went through the reconciliation and one of the
    two loops. *)
Lemma dump_Ok self vars :
  (dump tx self (Some vars)).2 = Ok tt →
  ∃ parts fmts ps,
    _parts self = Some parts ∧ formats self = Some fmts ∧
    _validate_and_reorder_params parts vars (_order self) = Ok ps ∧
    match types self with
    | Some ts =>
        ∃ out, dump_loop tx fmts ps 0 [] = (out, Ok tt) ∧
               dump tx self (Some vars) = (set_params (Some out) self, Ok tt)
    | None =>
        ∃ out tys, dump_loop_types tx fmts ps 0 [] [] = (out, tys, Ok tt) ∧
                   dump tx self (Some vars)
                   = (set_types (Some tys) (set_params (Some out) self), Ok tt)
    end.
Proof.
  unfold dump.
  destruct (_parts self) as [parts|]; [|done].
  destruct (_validate_and_reorder_params parts vars (_order self)) as [ps|] eqn:Ev;
    [|done].
  simpl. destruct (formats self) as [fmts|]; [|done].
  destruct (types self) as [ts|].
  - destruct (dump_loop tx fmts ps 0 []) as [out r] eqn:E. simpl. intros ->.
    exists parts, fmts, ps. split_and!; try done. by exists out.
  - destruct (dump_loop_types tx fmts ps 0 [] []) as [[out tys] r] eqn:E.
    simpl. intros ->.
    exists parts, fmts, ps. split_and!; try done. by exists out, tys.
Qed.

End Dump.

Lemma dump_each_keeps_types {V : Type} (tx : Transformer V) calls : ∀ self ts,
  types self = Some ts → types (dump_each tx self calls) = Some ts.
Proof.
  induction calls as [|vars calls IH]; intros self ts Hts; [done|].
  simpl. apply IH. by apply dump_keeps_types.
Qed.

(** C4 — Once [types] is set, every later [dump] with parameters leaves
    it as it is, whether the call returns or raises, and a call that
    returns has only recomputed [params]: the object after it has the new
    serialized parameters, the types of before, and the query, formats,
    name order and parts of before.  When [types] is not set, a [dump]
    with parameters that returns sets [types] and [params] together, one
    entry per reconciled parameter ([None] giving no bytes and the
    unknown type), and the types so set are those found after any run of
    further [dump] calls with parameters.  A [dump] without parameters
    sets [params] and [types] back to [None] and nothing else. *)
Theorem types_set_by_first_dump :
  ∀ (V : Type) (tx : Transformer V) (self : PostgresQuery) (vars : Params V),
    (∀ ts calls, types self = Some ts →
       types (dump_each tx self calls) = Some ts) ∧
    (∀ ts, types self = Some ts → (dump tx self (Some vars)).2 = Ok tt →
       ∃ parts fmts ps out,
         _parts self = Some parts ∧ formats self = Some fmts ∧
         _validate_and_reorder_params parts vars (_order self) = Ok ps ∧
         dump tx self (Some vars)
           = ({| query := query self; params := Some out; types := Some ts;
                 formats := Some fmts; _order := _order self;
                 _parts := Some parts |}, Ok tt) ∧
         length out = length ps ∧
         ∀ k p, ps !! k = Some p →
           ∃ b ty, out !! k = Some b ∧ dumped_as tx fmts k p b ty) ∧
    (types self = None → (dump tx self (Some vars)).2 = Ok tt →
       ∃ parts fmts ps out tys,
         _parts self = Some parts ∧ formats self = Some fmts ∧
         _validate_and_reorder_params parts vars (_order self) = Ok ps ∧
         dump tx self (Some vars)
           = ({| query := query self; params := Some out; types := Some tys;
                 formats := Some fmts; _order := _order self;
                 _parts := Some parts |}, Ok tt) ∧
         length out = length ps ∧ length tys = length ps ∧
         (∀ k p, ps !! k = Some p →
            ∃ b ty, out !! k = Some b ∧ tys !! k = Some ty ∧
                    dumped_as tx fmts k p b ty) ∧
         ∀ calls,
           types (dump_each tx (dump tx self (Some vars)).1 calls) = Some tys) ∧
    dump tx self None
      = ({| query := query self; params := None; types := None;
            formats := formats self; _order := _order self;
            _parts := _parts self |}, Ok tt).
Proof.
  intros V tx self vars. split_and!; try done.
  - intros ts calls Hts. by apply dump_each_keeps_types.
  - intros ts Hts Hok. destruct (dump_Ok tx self vars Hok)
      as (parts & fmts & ps & Hp & Hf & Hv & Hloop).
    rewrite Hts in Hloop. destruct Hloop as (out & Hloop & E).
    destruct (dump_loop_spec tx fmts ps 0 [] out Hloop) as (new & -> & Hlen & Hk).
    exists parts, fmts, ps, new. split_and!; try done.
    rewrite E. unfold set_params. by rewrite Hts, Hf, Hp.
  - intros Hts Hok. destruct (dump_Ok tx self vars Hok)
      as (parts & fmts & ps & Hp & Hf & Hv & Hloop).
    rewrite Hts in Hloop. destruct Hloop as (out & tys & Hloop & E).
    destruct (dump_loop_types_spec tx fmts ps 0 [] [] out tys Hloop)
      as (new_out & new_tys & -> & -> & Hl1 & Hl2 & Hk).
    exists parts, fmts, ps, new_out, new_tys. split_and!; try done.
    + rewrite E. unfold set_types, set_params. simpl. by rewrite Hf, Hp.
    + intros calls. apply dump_each_keeps_types. by rewrite E.
Qed.

(** The theorem at the object made by [convert("select %s, %s", (1,
    None))], whose parameters are [b"1", None] and whose types are [20;
    705]: [dump] calls with [(None, 7)], with too few parameters and with
    [(3, 4)] keep the types, and the first of them leaves the parameters
    [None, b"7"]; on the same object with [types] unset, [dump] with
    [(None, 7)] leaves the same parameters and the types [705; 20];
    [dump] without parameters unsets both. *)
Lemma types_set_by_first_dump_witness :
  params example_session = Some [Some (B "1"); None] ∧
  types example_session = Some [20; 705]%Z ∧
  types (dump_each example_tx example_session
           [PSeq [None; Some 7%Z]; PSeq [Some 1%Z]; PSeq [Some 3%Z; Some 4%Z]])
    = Some [20; 705]%Z ∧
  (params (dump example_tx example_session (Some (PSeq [None; Some 7%Z]))).1
     = Some [None; Some (B "7")] ∧
   types (dump example_tx example_session (Some (PSeq [None; Some 7%Z]))).1
     = Some [20; 705]%Z) ∧
  (params (dump example_tx
             {| query := query example_session; params := params example_session;
                types := None; formats := formats example_session;
                _order := _order example_session;
                _parts := _parts example_session |}
             (Some (PSeq [None; Some 7%Z]))).1
     = Some [None; Some (B "7")] ∧
   types (dump example_tx
            {| query := query example_session; params := params example_session;
               types := None; formats := formats example_session;
               _order := _order example_session;
               _parts := _parts example_session |}
            (Some (PSeq [None; Some 7%Z]))).1
     = Some [705; 20]%Z) ∧
  (params (dump example_tx example_session None).1 = None ∧
   types (dump example_tx example_session None).1 = None).
Proof.
  assert (types example_session = Some [20; 705]%Z) as Hts by by vm_compute.
  pose proof (types_set_by_first_dump Z example_tx example_session
                (PSeq [None; Some 7%Z])) as (H1 & H2 & _ & H4).
  split_and!.
  - by vm_compute.
  - exact Hts.
  - by apply H1.
  - destruct (H2 _ Hts) as (parts & fmts & ps & out & _ & _ & _ & E & _).
    { by vm_compute. }
    rewrite E. vm_compute in E. by injection E as <-.
  - destruct (H2 _ Hts) as (parts & fmts & ps & out & _ & _ & _ & E & _).
    { by vm_compute. }
    by rewrite E.
  - destruct (proj1 (proj2 (proj2 (types_set_by_first_dump Z example_tx
                {| query := query example_session; params := params example_session;
                   types := None; formats := formats example_session;
                   _order := _order example_session;
                   _parts := _parts example_session |}
                (PSeq [None; Some 7%Z])))))
      as (parts & fmts & ps & out & tys & _ & _ & _ & E & _).
    + done.
    + by vm_compute.
    + rewrite E. vm_compute in E. by injection E as <-.
  - destruct (proj1 (proj2 (proj2 (types_set_by_first_dump Z example_tx
                {| query := query example_session; params := params example_session;
                   types := None; formats := formats example_session;
                   _order := _order example_session;
                   _parts := _parts example_session |}
                (PSeq [None; Some 7%Z])))))
      as (parts & fmts & ps & out & tys & _ & _ & _ & E & _).
    + done.
    + by vm_compute.
    + rewrite E. vm_compute in E. by injection E as _ <-.
  - by rewrite H4.
  - by rewrite H4.
Defined.

(** ** [PostgresQuery.convert] *)

(** C7, as the code has it — [convert] without parameters sets [query]
    to the query as given, only encoded when it is text (placeholders and
    [%%] left as they are), and sets [formats], the name order, [params]
    and [types] to [None]; [_parts] is not assigned and keeps the parts
    of the previous conversion. *)
Theorem convert_without_params :
  ∀ (V : Type) (tx : Transformer V) (self : PostgresQuery) (q : Query) (b : bytes),
    encode_query (rendered q) (encoding tx) = Ok b →
    convert tx self q (@None (Params V))
    = ({| query := b; params := None; types := None; formats := None;
          _order := None; _parts := _parts self |}, Ok tt) ∧
    (∀ raw, q = Plain (Bytes raw) → b = raw).
Proof.
  intros V tx self q b Henc. split.
  - unfold convert. fold (rendered q). by rewrite Henc.
  - intros raw ->. simpl in Henc. by injection Henc.
Qed.

(** The theorem at [convert("100%% done", None)] on the object left by
    [convert("select %s, %s", (1, None))]. *)
Lemma convert_without_params_witness :
  convert example_tx example_session (Plain (Str "100%% done")) None
  = ({| query := B "100%% done"; params := None; types := None; formats := None;
        _order := None;
        _parts := Some [mkQueryPart (B "select ") (ItemInt 0) TEXT;
                        mkQueryPart (B ", ") (ItemInt 1) TEXT; terminal []] |},
     Ok tt).
Proof.
  refine (proj1 (convert_without_params Z example_tx example_session
                   (Plain (Str "100%% done")) (B "100%% done") _)).
  by vm_compute.
Defined.

(** After [convert] without parameters the parts are those of the query
    converted before: they are neither unset nor empty. *)
Lemma convert_without_params_keeps_parts :
  _parts (convert example_tx example_session (Plain (Str "select 1")) None).1
    = Some [mkQueryPart (B "select ") (ItemInt 0) TEXT;
            mkQueryPart (B ", ") (ItemInt 1) TEXT; terminal []] ∧
  ¬ (_parts (convert example_tx example_session (Plain (Str "select 1")) None).1 = None
     ∨ _parts (convert example_tx example_session (Plain (Str "select 1")) None).1
       = Some []).
Proof.
  assert (_parts (convert example_tx example_session (Plain (Str "select 1")) None).1
          = Some [mkQueryPart (B "select ") (ItemInt 0) TEXT;
                  mkQueryPart (B ", ") (ItemInt 1) TEXT; terminal []]) as H.
  { by vm_compute. }
  split; [exact H|]. rewrite H. by intros [?|?].
Qed.

(** * Further properties *)

(** ** The matches of the pattern in a query *)

Lemma span_not_paren_app (s : bytes) :
  ∀ run rest, span_not_paren s = (run, rest) → s = run ++ rest.
Proof.
  induction s as [|c s IH]; intros run rest; simpl.
  - by intros [= <- <-].
  - destruct (c =? ")"); [by intros [= <- <-]|].
    destruct (span_not_paren s) as [run' rest'].
    intros [= <- <-]. by rewrite (IH run' rest' eq_refl).
Qed.

Lemma match_at_prefix (s : bytes) g0 g1 :
  match_at s = Some (g0, g1) →
  ∃ c tail rest, g0 = "%" :: c :: tail ∧ s = g0 ++ rest.
Proof.
  unfold match_at. destruct s as [|c0 s1]; [done|].
  destruct (c0 =? "%") eqn:E0; [|done]. apply Ascii.eqb_eq in E0 as ->.
  destruct (match_named s1) as [[name f]|] eqn:En.
  - intros [= <- <-]. unfold match_named in En.
    destruct s1 as [|c1 s2]; [done|].
    destruct (c1 =? "(") eqn:E1; [|done]. apply Ascii.eqb_eq in E1 as ->.
    destruct (span_not_paren s2) as [run rest'] eqn:Es.
    apply span_not_paren_app in Es.
    destruct run as [|n run]; [done|].
    destruct rest' as [|c2 [|f' rest'']]; [done|done|].
    destruct (c2 =? ")") eqn:E2; [|done]. apply Ascii.eqb_eq in E2 as ->.
    destruct (dot f'); [|done]. simpl in En. injection En as <- <-.
    exists "(", (n :: run ++ [")"; f']), rest''. split; [done|].
    rewrite Es. simpl. by rewrite <- app_assoc.
  - destruct s1 as [|c1 s2]; [done|].
    destruct (dot c1); [|done]. intros [= <- <-].
    by exists c1, [], s2.
Qed.

Lemma matches_in_weaken q cur cur' ms :
  cur' ≤ cur → matches_in q cur ms → matches_in q cur' ms.
Proof.
  destruct ms as [|m ms]; [done|]. simpl.
  intros Hle (H1 & H2). split; [lia|done].
Qed.

Lemma finditer_from_matches_in (s : bytes) : ∀ skip passed,
  skip ≤ length s →
  matches_in (passed ++ s) (length passed + skip) (finditer_from skip (length passed) s).
Proof.
  induction s as [|c s IH]; intros skip passed Hskip; [done|].
  assert (passed ++ c :: s = (passed ++ [c]) ++ s) as Hq by by rewrite <- app_assoc.
  assert (length (passed ++ [c]) = S (length passed)) as Hlen
    by (rewrite length_app; simpl; lia).
  destruct skip as [|k].
  - cbn [finditer_from]. destruct (match_at (c :: s)) as [[g0 g1]|] eqn:Em.
    + destruct (match_at_prefix _ _ _ Em) as (c1 & tail & rest & Hg0 & Hs).
      assert (drop (length passed) (passed ++ c :: s) = c :: s) as Hdrop.
      { rewrite drop_app_length. done. }
      cbn [matches_in m_start m_end group0 group1]. rewrite Hdrop.
      split_and!; [lia|done|done|by exists rest|].
      specialize (IH (length g0 - 1) (passed ++ [c])).
      rewrite Hlen, <- Hq in IH.
      assert (length g0 ≤ S (length s)) as Hle.
      { pose proof (f_equal length Hs) as Hl. rewrite length_app in Hl.
        simpl in Hl. lia. }
      assert (1 ≤ length g0) by (rewrite Hg0; simpl; lia).
      replace (length passed + length g0) with (S (length passed) + (length g0 - 1))
        by lia.
      apply IH. lia.
    + specialize (IH 0 (passed ++ [c])). rewrite Hlen, <- Hq in IH.
      eapply matches_in_weaken; [|apply IH; lia]. lia.
  - cbn [finditer_from]. specialize (IH k (passed ++ [c])).
    rewrite Hlen, <- Hq in IH.
    replace (length passed + S k) with (S (length passed) + k) by lia.
    apply IH. simpl in Hskip. lia.
Qed.

Lemma finditer_matches_in q : matches_in q 0 (finditer q).
Proof. exact (finditer_from_matches_in q 0 [] (Nat.le_0_l _)). Qed.

Lemma matches_in_Forall q : ∀ ms cur,
  matches_in q cur ms →
  Forall (λ m, match_at (drop (m_start m) q) = Some (group0 m, group1 m) ∧
               ∃ rest, drop (m_start m) q = group0 m ++ rest) ms.
Proof.
  induction ms as [|m ms IH]; intros cur; [constructor|].
  simpl. intros (_ & _ & H3 & H4 & H5). constructor; [done|by eapply IH].
Qed.

Lemma split_pairs_from_cover q : ∀ ms cur,
  matches_in q cur ms →
  concat (map piece (split_pairs_from q cur ms)) = drop cur q.
Proof.
  induction ms as [|m ms IH]; intros cur Hin.
  - simpl. unfold piece. simpl. by rewrite !app_nil_r.
  - destruct Hin as (Hcur & Hend & _ & [rest Hrest] & Hin).
    simpl. rewrite (IH _ Hin). unfold piece at 1. simpl.
    rewrite Hend, <- (drop_drop q), Hrest, drop_app_length.
    unfold slice.
    rewrite <- (take_drop (m_start m - cur) (drop cur q)) at 2.
    rewrite drop_drop.
    replace (cur + (m_start m - cur)) with (m_start m) by lia.
    by rewrite Hrest, <- app_assoc.
Qed.

Lemma split_pairs_from_matches q : ∀ ms cur,
  ∃ init lastpre,
    split_pairs_from q cur ms = init ++ [(lastpre, None)] ∧
    map snd init = map Some ms.
Proof.
  induction ms as [|m ms IH]; intros cur; simpl.
  - by exists [], (drop cur q).
  - destruct (IH (m_end m)) as (init & lastpre & -> & Hsnd).
    exists ((slice q cur (m_start m), Some m) :: init), lastpre.
    simpl. by rewrite Hsnd.
Qed.

(** X1 — The pairs of the first loop of [_split_query] cover the query:
    the fragments and the matched texts, put end to end, give the query
    back byte for byte; every pair but the last holds a match, the
    matches being those of the pattern in order, and the last holds
    none; each match starts at or after the end of the one before and
    spans exactly the bytes it holds. *)
Theorem split_pairs_cover_query :
  ∀ q,
    concat (map piece (split_pairs q)) = q ∧
    (∃ init lastpre,
       split_pairs q = init ++ [(lastpre, None)] ∧
       map snd init = map Some (finditer q)) ∧
    matches_in q 0 (finditer q).
Proof.
  intros q. rewrite split_pairs_eq. split_and!.
  - by rewrite (split_pairs_from_cover q _ 0 (finditer_matches_in q)).
  - apply split_pairs_from_matches.
  - apply finditer_matches_in.
Qed.

(** ** Which queries [_split_query] accepts *)

(** X2 — [_split_query] returns exactly for the queries whose
    placeholders (the matches other than [%%]) all end in [s] or [b],
    have a name that can be decoded when they have one, and are all
    anonymous or all named. *)
Theorem split_query_accepts_iff :
  ∀ q enc,
    (∃ parts, _split_query q enc = Ok parts) ↔
    Forall (well_formed enc) (placeholders q) ∧
    ∃ t, Forall (λ m, kind_of m = t) (placeholders q).
Proof.
  intros q enc. split.
  - intros [parts Hsplit].
    destruct (split_query_parts _ _ _ Hsplit) as (nonterm & lastpre & t & _ & _ & Hwf & Hk & _).
    split; [done|by exists t].
  - intros [Hwf [t Hk]]. by eapply split_query_total.
Qed.

(** The theorem at [%(a)s and 10%% of %(b)b], accepted, and at
    [%(a)s and 10% of %(b)b], refused. *)
Lemma split_query_accepts_iff_witness :
  (∃ parts, _split_query (B "%(a)s and 10%% of %(b)b") ascii_codec = Ok parts) ∧
  ¬ (∃ parts, _split_query (B "%(a)s and 10% of %(b)b") ascii_codec = Ok parts).
Proof.
  split.
  - apply (proj2 (split_query_accepts_iff _ ascii_codec)). split.
    + eval_placeholders. repeat constructor; intros name [= <-]; by vm_compute; eauto.
    + exists TyStr. eval_placeholders. repeat constructor.
  - intros H. apply (proj1 (split_query_accepts_iff _ ascii_codec)) in H as [Hwf _].
    revert Hwf. eval_placeholders. intros Hwf.
    apply Forall_cons in Hwf as [_ Hwf]. apply Forall_cons in Hwf as [[Hbs _] _].
    by vm_compute in Hbs.
Defined.

Lemma split_loop_reaches enc q rest : ∀ pre m i ph t good bad later e,
  terminated rest m →
  filter (λ m, is_escape m = false) (matches_of rest m) = good ++ bad :: later →
  Forall (well_formed enc) good →
  Forall (λ m, kind_of m = t) good →
  (∀ t', ph = Some t' → t' = t) →
  check_placeholder enc q bad = Raise e →
  split_loop enc q rest pre m i ph [] = Raise e.
Proof.
  induction rest as [|[pre1 m1] rest IH];
    intros pre m i ph t good bad later e Hterm Hphs Hwf Hk Hph Hbad.
  - destruct m as [m|]; [done|]. by destruct good.
  - destruct m as [m|]; [|done].
    simpl matches_of in Hphs. destruct (is_escape m) eqn:He.
    + rewrite split_loop_escape by done.
      rewrite filter_cons_False in Hphs by (by rewrite He).
      by eapply IH.
    + rewrite filter_cons_True in Hphs by done.
      destruct good as [|g good].
      * injection Hphs as <- Hphs. simpl. unfold is_escape in He.
        by rewrite He, Hbad.
      * injection Hphs as <- Hphs.
        apply Forall_cons in Hwf as [Hm Hwf]. apply Forall_cons in Hk as [Hkm Hk].
        destruct (well_formed_item enc i m Hm) as (it & Hit & Hty).
        assert (check_phtype ph it = Ok t) as Ht.
        { apply check_phtype_Ok. split; [congruence|done]. }
        erewrite split_loop_placeholder; [|done|apply Hm|done|done].
        erewrite IH; try done. by intros t' [= <-].
Qed.

Lemma first_word_at_percent (s : bytes) :
  first_word ("%" :: s) = Ok ("%" :: until_space s).
Proof. done. Qed.

(** X3 — When the placeholders before it are well formed and of one
    kind, the first placeholder that does not end in [s] or [b] decides
    the error of [_split_query]: [% ] gives the message that advises to
    double the percent; [%(], which the pattern yields when no
    [(name)] and format follow, gives "incomplete placeholder" with the
    text from the [%] up to the next white space; any other gives "only
    '%s' and '%b' placeholders allowed" with the placeholder. *)
Theorem first_malformed_placeholder_error :
  ∀ q enc good bad later t,
    placeholders q = good ++ bad :: later →
    Forall (well_formed enc) good →
    Forall (λ m, kind_of m = t) good →
    (group0 bad = B "% " →
       _split_query q enc = Raise (ProgrammingError IncompletePercent)) ∧
    (group0 bad = B "%(" →
       ∀ fragment,
         decode enc (until_space (drop (m_start bad) q)) = Some fragment →
         _split_query q enc = Raise (ProgrammingError (IncompletePlaceholder fragment))) ∧
    (last_in_bs (group0 bad) = false →
       group0 bad ≠ B "% " → group0 bad ≠ B "%(" →
       ∀ got,
         decode enc (group0 bad) = Some got →
         _split_query q enc = Raise (ProgrammingError (OnlySB got))).
Proof.
  intros q enc good bad later t Hphs Hwf Hk.
  assert (∀ e, check_placeholder enc q bad = Raise e → _split_query q enc = Raise e)
    as Hreach.
  { intros e He. unfold _split_query. unfold placeholders in Hphs.
    destruct (split_pairs_shape q) as (pre & m & rest & -> & Hterm & Hms).
    rewrite <- Hms in Hphs. eapply split_loop_reaches; try done. }
  assert (∃ rest, drop (m_start bad) q = group0 bad ++ rest) as [rest Hrest].
  { pose proof (matches_in_Forall q _ _ (finditer_matches_in q)) as Hall.
    assert (bad ∈ finditer q) as Hin.
    { assert (bad ∈ placeholders q) as Hb.
      { rewrite Hphs. apply elem_of_app. right. by left. }
      unfold placeholders in Hb. by apply list_elem_of_filter in Hb as [_ ?]. }
    eapply Forall_forall in Hall; [|exact Hin]. by destruct Hall. }
  split_and!.
  - intros Hg. apply Hreach. unfold check_placeholder. by rewrite Hg.
  - intros Hg fragment Hdec. apply Hreach. unfold check_placeholder.
    rewrite Hg. simpl bytes_eqb. cbn match.
    rewrite Hrest, Hg in *. change (B "%(" ++ rest) with ("%" :: "(" :: rest) in *.
    rewrite first_word_at_percent. simpl.
    change (until_space ("%" :: "(" :: rest))
      with ("%" :: "(" :: until_space rest) in Hdec.
    unfold decode_with. by rewrite Hdec.
  - intros Hbs Hn1 Hn2 got Hdec. apply Hreach. unfold check_placeholder.
    apply bytes_eqb_false in Hn1, Hn2. rewrite Hn1, Hn2, Hbs. simpl.
    unfold decode_with. by rewrite Hdec.
Qed.

(** The theorem at [select %s, 3 % 2], [select %s from %(tab] and
    [select %s, %d]. *)
Lemma first_malformed_placeholder_error_witness :
  _split_query (B "select %s, 3 % 2") ascii_codec
    = Raise (ProgrammingError IncompletePercent) ∧
  _split_query (B "select %s from %(tab where") ascii_codec
    = Raise (ProgrammingError (IncompletePlaceholder "%(tab")) ∧
  _split_query (B "select %s, %d") ascii_codec
    = Raise (ProgrammingError (OnlySB "%d")).
Proof.
  split_and!.
  - refine (proj1 (first_malformed_placeholder_error (B "select %s, 3 % 2") ascii_codec
                     [mkMatch 7 9 (B "%s") None] (mkMatch 13 15 (B "% ") None) []
                     TyInt _ _ _) _); try done.
    repeat constructor; by intros name [=].
    repeat constructor.
  - refine (proj1 (proj2 (first_malformed_placeholder_error
                     (B "select %s from %(tab where") ascii_codec
                     [mkMatch 7 9 (B "%s") None] (mkMatch 15 17 (B "%(") None) []
                     TyInt _ _ _)) _ _ _); try done.
    repeat constructor; by intros name [=].
    repeat constructor.
  - refine (proj2 (proj2 (first_malformed_placeholder_error
                     (B "select %s, %d") ascii_codec
                     [mkMatch 7 9 (B "%s") None] (mkMatch 11 13 (B "%d") None) []
                     TyInt _ _ _)) _ _ _ _ _); try done.
    repeat constructor; by intros name [=].
    repeat constructor.
Defined.

(** ** One name in two formats *)

Lemma str_loop_raise : ∀ ps seen order chunks fmts e,
  all_kind TyStr ps →
  str_loop ps seen order chunks fmts = Raise e →
  ∃ name p,
    e = ProgrammingError (DifferentFormats name) ∧ p ∈ ps ∧ name_of p = name ∧
    ((∃ ph f, seen !! name = Some (ph, f) ∧ f ≠ format p) ∨
     (∃ p0, p0 ∈ ps ∧ name_of p0 = name ∧ format p0 ≠ format p)).
Proof.
  induction ps as [|p ps IH]; intros seen order chunks fmts e Hkind Hrun; [done|].
  apply Forall_cons in Hkind as [Hp Hkind].
  simpl in Hrun. rewrite (named_item p Hp) in Hrun.
  destruct (seen !! name_of p) as [[ph f]|] eqn:Hx.
  - case_bool_decide as Hf.
    + injection Hrun as <-. exists (name_of p), p.
      split_and!; [done|by left|done|]. left. by exists ph, f.
    + destruct (IH _ _ _ _ _ Hkind Hrun) as (name & p' & -> & Hin & Hname & Hor).
      exists name, p'. split_and!; [done|by right|done|].
      destruct Hor as [Hseen|(p0 & Hp0 & Hn0 & Hf0)]; [by left|].
      right. exists p0. split_and!; [by right|done|done].
  - destruct (IH _ _ _ _ _ Hkind Hrun) as (name & p' & -> & Hin & Hname & Hor).
    exists name, p'. split_and!; [done|by right|done|].
    destruct Hor as [(ph & f & Hseen & Hf)|(p0 & Hp0 & Hn0 & Hf0)].
    + destruct (decide (name = name_of p)) as [->|Hne].
      * rewrite lookup_insert_eq in Hseen. injection Hseen as <- <-.
        right. exists p. split_and!; [by left|done|done].
      * rewrite lookup_insert_ne in Hseen by done. left. by exists ph, f.
    + right. exists p0. split_and!; [by right|done|done].
Qed.

Lemma str_loop_Ok_consistent : ∀ ps seen order chunks fmts r,
  all_kind TyStr ps →
  str_loop ps seen order chunks fmts = Ok r →
  consistent ps ∧
  ∀ x ph f, seen !! x = Some (ph, f) → ∀ p, p ∈ ps → name_of p = x → format p = f.
Proof.
  induction ps as [|p ps IH]; intros seen order chunks fmts r Hkind Hrun.
  - split; [by intros p1 p2 ?%elem_of_nil|by intros x ph f _ p ?%elem_of_nil].
  - apply Forall_cons in Hkind as [Hp Hkind].
    simpl in Hrun. rewrite (named_item p Hp) in Hrun.
    destruct (seen !! name_of p) as [[ph f]|] eqn:Hx.
    + case_bool_decide as Hf; [done|]. subst f.
      destruct (IH _ _ _ _ _ Hkind Hrun) as [Hcons Hseen].
      assert (∀ p', p' ∈ p :: ps → name_of p' = name_of p → format p' = format p)
        as Hsame.
      { intros p' [->|Hin]%elem_of_cons Hn; [done|]. by eapply Hseen. }
      split.
      * intros p1 p2 [->|H1]%elem_of_cons [->|H2]%elem_of_cons Hn.
        -- done.
        -- symmetry. apply Hsame; [by right|done].
        -- apply Hsame; [by right|done].
        -- by apply Hcons.
      * intros x ph' f' Hl p' [->|Hin]%elem_of_cons Hn.
        -- rewrite Hn in Hx. congruence.
        -- by eapply Hseen.
    + destruct (IH _ _ _ _ _ Hkind Hrun) as [Hcons Hseen].
      assert (∀ p', p' ∈ ps → name_of p' = name_of p → format p' = format p)
        as Hsame.
      { intros p' Hin Hn. eapply Hseen; [apply lookup_insert_eq|done|done]. }
      split.
      * intros p1 p2 [->|H1]%elem_of_cons [->|H2]%elem_of_cons Hn.
        -- done.
        -- symmetry. by apply Hsame.
        -- by apply Hsame.
        -- by apply Hcons.
      * intros x ph' f' Hl p' [->|Hin]%elem_of_cons Hn.
        -- rewrite Hn in Hx. congruence.
        -- eapply Hseen; [|done|done].
           rewrite lookup_insert_ne; [done|]. intros E. rewrite E in Hx. congruence.
Qed.

Lemma query2pg_named_run q enc p0 nonterm lastpre :
  _split_query q enc = Ok ((p0 :: nonterm) ++ [terminal lastpre]) →
  all_kind TyStr (p0 :: nonterm) →
  _query2pg (Bytes q) enc =
  match str_loop (p0 :: nonterm) ∅ [] [] [] with
  | Ok (order, chunks, fmts) =>
      Ok (concat (chunks ++ [lastpre]), fmts, Some order,
          (p0 :: nonterm) ++ [terminal lastpre])
  | Raise e => Raise e
  end.
Proof.
  intros Hsplit Hkind. rewrite (query2pg_of_parts _ _ _ Hsplit).
  pose proof (Forall_inv Hkind) as H0. apply named_item in H0.
  cbn [app]. rewrite H0. change (p0 :: nonterm ++ [terminal lastpre])
    with ((p0 :: nonterm) ++ [terminal lastpre]).
  unfold but_last. rewrite removelast_last, last_last.
  by destruct (str_loop _ _ _ _ _) as [[[o c] f]|].
Qed.

(** X4 — In a query of well-formed named placeholders, [_query2pg]
    raises on one ground only, a name asked for in two formats: any
    error it raises is "placeholder 'name' cannot have different
    formats" for a name that two placeholders of the query bear with
    different formats, and it does raise that error as soon as two such
    placeholders exist. *)
Theorem named_format_conflict :
  ∀ q enc,
    placeholders q ≠ [] →
    Forall (λ m, kind_of m = TyStr ∧ well_formed enc m) (placeholders q) →
    (∀ e, _query2pg (Bytes q) enc = Raise e →
       ∃ name m1 m2,
         e = ProgrammingError (DifferentFormats name) ∧
         m1 ∈ placeholders q ∧ m2 ∈ placeholders q ∧
         decoded_name enc m1 = Some name ∧ decoded_name enc m2 = Some name ∧
         format_of m1 ≠ format_of m2) ∧
    ((∃ m1 m2, m1 ∈ placeholders q ∧ m2 ∈ placeholders q ∧
               decoded_name enc m1 = decoded_name enc m2 ∧
               format_of m1 ≠ format_of m2) →
     ∃ name, _query2pg (Bytes q) enc = Raise (ProgrammingError (DifferentFormats name))).
Proof.
  intros q enc Hne Hall.
  assert (Forall (well_formed enc) (placeholders q)) as Hwf.
  { eapply Forall_impl; [exact Hall|]. by intros m [_ H]. }
  assert (Forall (λ m, kind_of m = TyStr) (placeholders q)) as Hk.
  { eapply Forall_impl; [exact Hall|]. by intros m [H _]. }
  destruct (split_query_total q enc TyStr Hwf Hk) as [parts Hsplit].
  destruct (split_query_parts _ _ _ Hsplit)
    as (nonterm & lastpre & t & -> & Hparts & _ & _ & _).
  destruct (parts_for_named _ _ _ _ Hparts Hk) as [HF Hkind].
  destruct nonterm as [|p0 nonterm].
  { apply parts_for_length in Hparts. by destruct (placeholders q). }
  rewrite (query2pg_named_run _ _ _ _ _ Hsplit Hkind).
  assert (∀ e, str_loop (p0 :: nonterm) ∅ [] [] [] = Raise e →
            ∃ name m1 m2,
              e = ProgrammingError (DifferentFormats name) ∧
              m1 ∈ placeholders q ∧ m2 ∈ placeholders q ∧
              decoded_name enc m1 = Some name ∧ decoded_name enc m2 = Some name ∧
              format_of m1 ≠ format_of m2) as Hraise.
  { intros e Hrun.
    destruct (str_loop_raise _ _ _ _ _ _ Hkind Hrun)
      as (name & p & -> & Hp & Hname & [(ph & f & Hl & _)|(p1 & Hp1 & Hn1 & Hf1)]).
    { by rewrite lookup_empty in Hl. }
    apply list_elem_of_lookup in Hp as [k Hp].
    apply list_elem_of_lookup in Hp1 as [k1 Hp1].
    destruct (Forall2_lookup_l _ _ _ _ _ HF Hp) as (m & Hm & Hd & Hfm).
    destruct (Forall2_lookup_l _ _ _ _ _ HF Hp1) as (m1 & Hm1 & Hd1 & Hfm1).
    exists name, m1, m. split_and!; try done.
    - apply list_elem_of_lookup. eauto.
    - apply list_elem_of_lookup. eauto.
    - by rewrite Hd1, Hn1.
    - by rewrite Hd, Hname.
    - congruence. }
  split.
  - intros e He. apply Hraise.
    destruct (str_loop (p0 :: nonterm) ∅ [] [] []) as [[[o c] f]|e']; [done|].
    by injection He as ->.
  - intros (m1 & m2 & Hm1 & Hm2 & Hd & Hf).
    destruct (str_loop (p0 :: nonterm) ∅ [] [] []) as [[[o c] f]|e] eqn:Hrun.
    + exfalso. destruct (str_loop_Ok_consistent _ _ _ _ _ _ Hkind Hrun) as [Hcons _].
      apply list_elem_of_lookup in Hm1 as [k1 Hm1].
      apply list_elem_of_lookup in Hm2 as [k2 Hm2].
      destruct (Forall2_lookup_r _ _ _ _ _ HF Hm1) as (p1 & Hp1 & Hd1 & Hf1).
      destruct (Forall2_lookup_r _ _ _ _ _ HF Hm2) as (p2 & Hp2 & Hd2 & Hf2).
      apply Hf. rewrite <- Hf1, <- Hf2. apply Hcons.
      * apply list_elem_of_lookup. eauto.
      * apply list_elem_of_lookup. eauto.
      * congruence.
    + destruct (Hraise e eq_refl) as (name & _ & _ & -> & _). by exists name.
Qed.

(** The theorem at [select %(a)s, %(b)s, %(a)b]. *)
Lemma named_format_conflict_witness :
  ∃ name, _query2pg (Bytes (B "select %(a)s, %(b)s, %(a)b")) ascii_codec
          = Raise (ProgrammingError (DifferentFormats name)) ∧ name = "a"%string.
Proof.
  destruct (proj2 (named_format_conflict (B "select %(a)s, %(b)s, %(a)b") ascii_codec
                     ltac:(by vm_compute)
                     ltac:(eval_placeholders;
                           repeat constructor; intros name [= <-]; by vm_compute; eauto)))
    as [name Hname].
  - exists (mkMatch 7 12 (B "%(a)s") (Some (B "a"))),
           (mkMatch 21 26 (B "%(a)b") (Some (B "a"))).
    split_and!.
    + eval_placeholders. by left.
    + eval_placeholders. right. right. by left.
    + done.
    + by vm_compute.
  - exists name. split; [exact Hname|].
    vm_compute in Hname. congruence.
Defined.

(** ** Which exceptions [_query2pg] raises *)

Lemma check_placeholder_caller_error enc q m e :
  (∃ rest, drop (m_start m) q = group0 m ++ rest) →
  (∃ c tail, group0 m = "%" :: c :: tail) →
  check_placeholder enc q m = Raise e →
  (∃ msg, e = ProgrammingError msg) ∨ e = UnicodeError.
Proof.
  intros [rest Hrest] (c & tail & Hg). unfold check_placeholder.
  destruct (bytes_eqb (group0 m) (B "%(")).
  { rewrite Hrest, Hg. simpl app. rewrite first_word_at_percent. simpl.
    unfold decode_with. destruct (decode enc _); simpl; intros [= <-]; eauto. }
  destruct (bytes_eqb (group0 m) (B "% ")); [intros [= <-]; eauto|].
  destruct (negb (last_in_bs (group0 m))); [|done].
  unfold decode_with. destruct (decode enc _); simpl; intros [= <-]; eauto.
Qed.

Lemma split_loop_caller_error enc q rest : ∀ pre m i ph rv e,
  terminated rest m →
  Forall (λ m, (∃ rest, drop (m_start m) q = group0 m ++ rest) ∧
               ∃ c tail, group0 m = "%" :: c :: tail) (matches_of rest m) →
  split_loop enc q rest pre m i ph rv = Raise e →
  (∃ msg, e = ProgrammingError msg) ∨ e = UnicodeError.
Proof.
  induction rest as [|[pre1 m1] rest IH]; intros pre m i ph rv e Hterm Hall Hrun.
  - by destruct m.
  - destruct m as [m|]; [|done].
    simpl matches_of in Hall. apply Forall_cons in Hall as [[Hm1 Hm2] Hall].
    simpl in Hrun. destruct (bytes_eqb (group0 m) (B "%%")).
    { by eapply IH. }
    destruct (check_placeholder enc q m) as [[]|e1] eqn:Hc; simpl in Hrun.
    2:{ injection Hrun as <-. by eapply check_placeholder_caller_error. }
    unfold item_of, decode_with in Hrun.
    destruct (group1 m) as [name|].
    + destruct (decode enc name) as [sname|]; simpl in Hrun;
        [|injection Hrun as <-; by right].
      destruct (check_phtype ph (ItemStr sname)) as [t|e1] eqn:Ht; simpl in Hrun.
      * by eapply IH.
      * injection Hrun as <-. unfold check_phtype in Ht.
        destruct ph; [|done]. case_bool_decide; [|done]. injection Ht as <-. eauto.
    + simpl in Hrun.
      destruct (check_phtype ph (ItemInt i)) as [t|e1] eqn:Ht; simpl in Hrun.
      * by eapply IH.
      * injection Hrun as <-. unfold check_phtype in Ht.
        destruct ph; [|done]. case_bool_decide; [|done]. injection Ht as <-. eauto.
Qed.

Lemma split_query_caller_error q enc e :
  _split_query q enc = Raise e → (∃ msg, e = ProgrammingError msg) ∨ e = UnicodeError.
Proof.
  unfold _split_query.
  destruct (split_pairs_shape q) as (pre & m & rest & -> & Hterm & Hms).
  apply split_loop_caller_error; [done|]. rewrite Hms.
  eapply Forall_impl; [apply (matches_in_Forall q _ 0), finditer_matches_in|].
  intros m0 [Hat Hrest]. split; [done|].
  destruct (match_at_prefix _ _ _ Hat) as (c & tail & _ & Hg & _). eauto.
Qed.

Lemma int_loop_formats : ∀ ps chunks fmts chunks' fmts',
  int_loop ps chunks fmts = Ok (chunks', fmts') → fmts' = fmts ++ map format ps.
Proof.
  induction ps as [|p ps IH]; intros chunks fmts chunks' fmts' Hrun; simpl in *.
  - injection Hrun as _ <-. by rewrite app_nil_r.
  - destruct (item p); [|done]. apply IH in Hrun as ->. by rewrite <- app_assoc.
Qed.

Lemma int_loop_total : ∀ ps chunks fmts,
  all_kind TyInt ps → ∃ r, int_loop ps chunks fmts = Ok r.
Proof.
  induction ps as [|p ps IH]; intros chunks fmts Hkind; simpl; [eauto|].
  apply Forall_cons in Hkind as [Hp Hkind].
  destruct (item p); [by apply IH|done].
Qed.

Lemma query2pg_Bytes q enc :
  _query2pg q enc =
  match encode_query q enc with
  | Ok b => _query2pg (Bytes b) enc
  | Raise e => Raise e
  end.
Proof. unfold _query2pg. by destruct (encode_query q enc). Qed.

Lemma encode_query_error q enc e : encode_query q enc = Raise e → e = UnicodeError.
Proof.
  destruct q as [s|b]; simpl; [|done]. destruct (encode enc s); [done|].
  by intros [= <-].
Qed.

Lemma query2pg_bytes_error b enc e :
  _query2pg (Bytes b) enc = Raise e →
  (∃ msg, e = ProgrammingError msg) ∨ e = UnicodeError.
Proof.
  destruct (_split_query b enc) as [parts|e0] eqn:Hsplit.
  2:{ rewrite (query2pg_split_raise _ _ _ Hsplit). intros [= <-].
      by eapply split_query_caller_error. }
  destruct (split_query_parts _ _ _ Hsplit)
    as (nonterm & lastpre & t & -> & _ & _ & _ & Hkind).
  destruct nonterm as [|p0 nonterm].
  { by rewrite (query2pg_terminal _ _ _ Hsplit). }
  destruct t.
  - rewrite (query2pg_of_parts _ _ _ Hsplit). cbn [app].
    pose proof (Forall_inv Hkind) as H0. simpl in H0.
    destruct (item p0) eqn:Hitem; [|done].
    change (p0 :: nonterm ++ [terminal lastpre])
      with ((p0 :: nonterm) ++ [terminal lastpre]).
    unfold but_last. rewrite removelast_last.
    by destruct (int_loop_total (p0 :: nonterm) [] [] Hkind) as [[c f] ->].
  - rewrite (query2pg_named_run _ _ _ _ _ Hsplit Hkind).
    destruct (str_loop (p0 :: nonterm) ∅ [] [] []) as [[[o c] f]|e0] eqn:Hrun; [done|].
    intros [= <-].
    destruct (str_loop_raise _ _ _ _ _ _ Hkind Hrun) as (name & _ & -> & _). eauto.
Qed.

(** X5 — [_query2pg] raises nothing but [ProgrammingError] (the five
    messages about placeholders) and the error of the codec: the index
    and assertion failures that its code could raise on a list of parts
    without terminal part or of mixed kinds never happen on the parts
    that [_split_query] returns. *)
Theorem query2pg_raises_only :
  ∀ q enc e,
    _query2pg q enc = Raise e →
    (∃ msg, e = ProgrammingError msg) ∨ e = UnicodeError.
Proof.
  intros q enc e. rewrite query2pg_Bytes.
  destruct (encode_query q enc) as [b|e0] eqn:Henc.
  - apply query2pg_bytes_error.
  - intros [= <-]. right. by eapply encode_query_error.
Qed.

(** The theorem at [select %(a)s, %(a], refused for its incomplete
    placeholder, and at a name that the [ascii] codec cannot decode. *)
Lemma query2pg_raises_only_witness :
  (∃ e, _query2pg (Str "select %(a)s, %(a") ascii_codec = Raise e ∧
        ((∃ msg, e = ProgrammingError msg) ∨ e = UnicodeError)) ∧
  (∃ e, _query2pg (Bytes ("%" :: "(" :: "233" :: B ")s")) ascii_codec = Raise e ∧
        ((∃ msg, e = ProgrammingError msg) ∨ e = UnicodeError)).
Proof.
  split.
  - exists (ProgrammingError (IncompletePlaceholder "%(a")).
    assert (_query2pg (Str "select %(a)s, %(a") ascii_codec
            = Raise (ProgrammingError (IncompletePlaceholder "%(a"))) as H
      by by vm_compute.
    split; [exact H|exact (query2pg_raises_only _ _ _ H)].
  - exists UnicodeError.
    assert (_query2pg (Bytes ("%" :: "(" :: "233" :: B ")s")) ascii_codec
            = Raise UnicodeError) as H by by vm_compute.
    split; [exact H|exact (query2pg_raises_only _ _ _ H)].
Defined.

(** ** The shape of what [_query2pg] returns *)

Lemma query2pg_shape q enc rq fmts order parts :
  _query2pg q enc = Ok (rq, fmts, order, parts) →
  ∃ n it,
    length parts = S n ∧ first_item parts = Ok it ∧
    ((order = None ∧ type_of it = TyInt ∧ length fmts = n) ∨
     (∃ names, order = Some names ∧ type_of it = TyStr ∧
               length fmts = length names ∧ 0 < n)).
Proof.
  rewrite query2pg_Bytes. destruct (encode_query q enc) as [b|]; [|done].
  destruct (_split_query b enc) as [parts'|e0] eqn:Hsplit.
  2:{ by rewrite (query2pg_split_raise _ _ _ Hsplit). }
  destruct (split_query_parts _ _ _ Hsplit)
    as (nonterm & lastpre & t & -> & _ & _ & _ & Hkind).
  destruct nonterm as [|p0 nonterm].
  { rewrite (query2pg_terminal _ _ _ Hsplit). intros [= _ <- <- <-].
    exists 0, (ItemInt 0). split_and!; [done|done|]. by left. }
  assert (length ((p0 :: nonterm) ++ [terminal lastpre]) = S (S (length nonterm)))
    as Hlen by (rewrite length_app; simpl; lia).
  destruct t.
  - rewrite (query2pg_of_parts _ _ _ Hsplit). cbn [app].
    pose proof (Forall_inv Hkind) as H0. simpl in H0.
    destruct (item p0) eqn:Hitem; [|done].
    change (p0 :: nonterm ++ [terminal lastpre])
      with ((p0 :: nonterm) ++ [terminal lastpre]).
    unfold but_last. rewrite removelast_last.
    destruct (int_loop (p0 :: nonterm) [] []) as [[c f]|] eqn:Hrun; [|done].
    intros [= _ <- <- <-]. apply int_loop_formats in Hrun as ->.
    exists (S (length nonterm)), (item p0). split_and!; [done|done|].
    left. rewrite Hitem. split_and!; [done|done|]. simpl. by rewrite length_map.
  - rewrite (query2pg_named_run _ _ _ _ _ Hsplit Hkind).
    destruct (str_loop (p0 :: nonterm) ∅ [] [] []) as [[[o c] f]|] eqn:Hrun; [|done].
    intros [= _ <- <- <-].
    destruct (str_loop_spec _ _ _ _ _ _ _ _ Hkind assigned_empty Hrun) as (-> & -> & _).
    exists (S (length nonterm)), (item p0). split_and!; [done|done|].
    right. eexists. split_and!; [done|apply (Forall_inv Hkind)| |lia].
    cbn [app]. by rewrite length_map.
Qed.

(** ** Reconciling parameters with a rewritten query *)

Lemma lookup_all_length {V : Type} (kv : gmap string (option V)) names vs :
  lookup_all kv names = Some vs → length vs = length names.
Proof.
  intros H. apply lookup_all_Some in H. symmetry. by eapply Forall2_length.
Qed.

(** X6 — Parameters of the wrong kind are refused with a [TypeError]: a
    non-empty sequence of the right length for a query with named
    placeholders ("named placeholders require a mapping"), and a
    non-empty mapping for a query with at least one anonymous placeholder
    ("positional placeholders require a sequence"). *)
Theorem reconcile_kind_mismatch :
  ∀ (V : Type) q enc rq fmts order parts,
    _query2pg q enc = Ok (rq, fmts, order, parts) →
    (∀ names (xs : list (option V)),
       order = Some names → xs ≠ [] → S (length xs) = length parts →
       _validate_and_reorder_params parts (PSeq xs) order
       = Raise (TypeError NamedRequireMapping)) ∧
    (∀ kv : gmap string (option V),
       order = None → 1 < length parts → kv ≠ ∅ →
       _validate_and_reorder_params parts (PMap kv) order
       = Raise (TypeError PositionalRequireSequence)).
Proof.
  intros V q enc rq fmts order parts Hq.
  destruct (query2pg_shape _ _ _ _ _ _ Hq) as (n & it & Hlen & Hit & Hor).
  split.
  - intros names xs -> Hxs Hl. unfold _validate_and_reorder_params.
    rewrite bool_decide_eq_false_2 by lia.
    destruct xs as [|x xs]; [done|]. rewrite Hit. simpl.
    destruct Hor as [(? & _)|(names' & _ & Hty & _)]; [done|].
    unfold is_int. by rewrite Hty.
  - intros kv -> Hl Hkv. unfold _validate_and_reorder_params.
    rewrite !bool_decide_eq_true_2 by done. simpl. rewrite Hit. simpl.
    destruct Hor as [(_ & Hty & _)|(names' & ? & _)]; [|done].
    unfold is_str. by rewrite Hty.
Qed.

(** The theorem at [select %(a)s] with the parameters [(1,)] and at
    [select %s] with the parameters [{"a": 1}]. *)
Lemma reconcile_kind_mismatch_witness :
  _validate_and_reorder_params
    [mkQueryPart (B "select ") (ItemStr "a") TEXT; terminal []]
    (PSeq [Some 1%Z]) (Some ["a"%string])
  = Raise (TypeError NamedRequireMapping) ∧
  _validate_and_reorder_params
    [mkQueryPart (B "select ") (ItemInt 0) TEXT; terminal []]
    (PMap ({[ "a"%string := Some 1%Z ]} : gmap string (option Z))) None
  = Raise (TypeError PositionalRequireSequence).
Proof.
  split.
  - refine (proj1 (reconcile_kind_mismatch Z (Str "select %(a)s") ascii_codec
                     _ _ _ _ _) _ _ eq_refl _ _); [by vm_compute|done|done].
  - refine (proj2 (reconcile_kind_mismatch Z (Str "select %s") ascii_codec
                     _ _ _ _ _) _ eq_refl _ _); [by vm_compute|simpl; lia|].
    intros H. by apply (f_equal (λ m, m !! "a"%string)) in H.
Defined.

Lemma validate_length {V : Type} (fmts : list Format) order parts
    (vars : Params V) ps n it :
  length parts = S n → first_item parts = Ok it →
  (order = None ∧ type_of it = TyInt ∧ length fmts = n) ∨
  (∃ names, order = Some names ∧ type_of it = TyStr ∧
            length fmts = length names ∧ 0 < n) →
  _validate_and_reorder_params parts vars order = Ok ps →
  length ps = length fmts ∨ (vars = PMap ∅ ∧ order = None ∧ ps = []).
Proof.
  intros Hlen Hit Hor.
  unfold _validate_and_reorder_params. destruct vars as [xs|kv|ty]; [| |done].
  - case_bool_decide as Hl; [done|].
    assert (length xs = n) as Hn by lia.
    destruct xs as [|x xs].
    + intros [= <-]. left. simpl in Hn. subst n.
      destruct Hor as [(_ & _ & ->)|(names & _ & _ & _ & ?)]; [done|lia].
    + rewrite Hit. simpl. destruct (is_int it) eqn:Hint; [|done]. simpl.
      intros [= <-]. left.
      destruct Hor as [(_ & _ & ->)|(names & _ & Hty & _)]; [done|].
      unfold is_int in Hint. by rewrite Hty in Hint.
  - destruct Hor as [(-> & Hty & Hf)|(names & -> & Hty & Hf & Hn)].
    + destruct (decide (kv = ∅)) as [->|Hkv].
      * simpl. intros [= <-]. right. done.
      * rewrite (bool_decide_eq_true_2 _ Hkv). simpl.
        case_bool_decide as Hl.
        -- rewrite Hit. simpl. unfold is_str. by rewrite Hty.
        -- simpl. intros [= <-]. left. rewrite Hlen in Hl. simpl. lia.
    + assert ((if bool_decide (kv ≠ ∅) && bool_decide (1 < length parts)
               then it0 ← first_item parts;
                    if negb (is_str it0)
                    then Raise (TypeError PositionalRequireSequence) else Ok ()
               else Ok ()) = Ok tt) as ->.
      { destruct (_ && _); [|done]. rewrite Hit. simpl. unfold is_str.
        by rewrite Hty. }
      simpl. destruct (lookup_all kv names) as [vs|] eqn:Hvs; [|done].
      intros [= <-]. left. rewrite Hf. by eapply lookup_all_length.
Qed.



(** ** [convert] and [dump] as a user meets them *)

Section Use.
Context {V : Type} (tx : Transformer V).

Lemma dump_loop_types_raise fmts : ∀ ps i out tys out' tys' e,
  dump_loop_types tx fmts ps i out tys = (out', tys', Raise e) →
  (∃ new_out new_tys,
     out' = out ++ new_out ∧ tys' = tys ++ new_tys ∧
     length new_out = length new_tys ∧ length new_out < length ps) ∧
  ((e = IndexError ∧ length fmts < i + length ps) ∨ from_dumper tx e).
Proof.
  induction ps as [|p ps IH]; intros i out tys out' tys' e Hrun; [done|].
  simpl in Hrun. destruct p as [v|].
  - destruct (fmts !! i) as [fmt|] eqn:Hf.
    2:{ injection Hrun as <- <- <-. split.
        - exists [], []. rewrite !app_nil_r. simpl. split_and!; try done. lia.
        - left. split; [done|]. apply lookup_ge_None in Hf. simpl. lia. }
    destruct (get_dumper tx v fmt) as [d|e1] eqn:Hd.
    2:{ injection Hrun as <- <- <-. split.
        - exists [], []. rewrite !app_nil_r. simpl. split_and!; try done. lia.
        - right. left. by exists v, fmt. }
    destruct (dumper_dump d v) as [bs|e1] eqn:Hb.
    2:{ injection Hrun as <- <- <-. split.
        - exists [], []. rewrite !app_nil_r. simpl. split_and!; try done. lia.
        - right. right. by exists v, fmt, d. }
    destruct (IH _ _ _ _ _ _ Hrun) as [(no & nt & -> & -> & Hl1 & Hl2) Hor]. split.
    + exists (Some bs :: no), (dumper_oid d :: nt). rewrite <- !app_assoc.
      simpl. split_and!; try done; lia.
    + destruct Hor as [[-> Hlt]|Hfrom]; [left|by right]. split; [done|]. simpl. lia.
  - destruct (IH _ _ _ _ _ _ Hrun) as [(no & nt & -> & -> & Hl1 & Hl2) Hor]. split.
    + exists (None :: no), (UNKNOWN_OID :: nt). rewrite <- !app_assoc.
      simpl. split_and!; try done; lia.
    + destruct Hor as [[-> Hlt]|Hfrom]; [left|by right]. split; [done|]. simpl. lia.
Qed.

Lemma dump_loop_raise fmts : ∀ ps i out out' e,
  dump_loop tx fmts ps i out = (out', Raise e) →
  (e = IndexError ∧ length fmts < i + length ps) ∨ from_dumper tx e.
Proof.
  induction ps as [|p ps IH]; intros i out out' e Hrun; [done|].
  simpl in Hrun. destruct p as [v|].
  - destruct (fmts !! i) as [fmt|] eqn:Hf.
    2:{ injection Hrun as <- <-. left. split; [done|].
        apply lookup_ge_None in Hf. simpl. lia. }
    destruct (get_dumper tx v fmt) as [d|e1] eqn:Hd.
    2:{ injection Hrun as <- <-. right. left. by exists v, fmt. }
    destruct (dumper_dump d v) as [bs|e1] eqn:Hb.
    2:{ injection Hrun as <- <-. right. right. by exists v, fmt, d. }
    destruct (IH _ _ _ _ Hrun) as [[-> Hlt]|Hfrom]; [left|by right].
    split; [done|]. simpl. lia.
  - destruct (IH _ _ _ _ Hrun) as [[-> Hlt]|Hfrom]; [left|by right].
    split; [done|]. simpl. lia.
Qed.

Lemma validate_caller_error parts it (vars : Params V) order e :
  first_item parts = Ok it →
  _validate_and_reorder_params parts vars order = Raise e →
  caller_error e.
Proof.
  intros Hit. unfold _validate_and_reorder_params.
  destruct vars as [xs|kv|ty]; [| |by intros [= <-]].
  - case_bool_decide; [by intros [= <-]|].
    destruct xs; [done|]. rewrite Hit. simpl.
    destruct (negb (is_int it)); [by intros [= <-]|done].
  - destruct (_ && _).
    + rewrite Hit. simpl. destruct (negb (is_str it)); [by intros [= <-]|].
      simpl. destruct (lookup_all _ _); [done|by intros [= <-]].
    + simpl. destruct (lookup_all _ _); [done|by intros [= <-]].
Qed.

(** X8 — Whatever the query and the parameters, an exception that comes
    out of [convert] is a [ProgrammingError], a [TypeError] or the error
    of the codec, or else is one that a dumper of the transformer
    raised: [convert] never fails on an index, an assertion or a missing
    attribute of its own. *)
Theorem convert_raises_only :
  ∀ (self : PostgresQuery) (q : Query) (vars : option (Params V)) e,
    (convert tx self q vars).2 = Raise e →
    caller_error e ∨
    (∃ v fmt, get_dumper tx v fmt = Raise e) ∨
    (∃ v fmt d, get_dumper tx v fmt = Ok d ∧ dumper_dump d v = Raise e).
Proof.
  intros self q vars e. unfold convert. fold (rendered q).
  destruct vars as [vars|].
  2:{ destruct (encode_query (rendered q) (encoding tx)) as [b|e0] eqn:Henc; [done|].
      simpl. intros [= <-]. left. by rewrite (encode_query_error _ _ _ Henc). }
  destruct (_query2pg (rendered q) (encoding tx)) as [[[[rq fmts] order] parts]|e0]
    eqn:Hq.
  2:{ simpl. intros [= <-]. left. rewrite query2pg_Bytes in Hq.
      destruct (encode_query (rendered q) (encoding tx)) as [b|e1] eqn:Henc.
      - by destruct (query2pg_bytes_error _ _ _ Hq) as [[msg ->]| ->].
      - injection Hq as <-. by rewrite (encode_query_error _ _ _ Henc). }
  destruct (query2pg_shape _ _ _ _ _ _ Hq) as (n & it & Hlen & Hit & Hor).
  unfold dump. cbn [_parts _order].
  destruct (_validate_and_reorder_params parts vars order) as [ps|e0] eqn:Hv.
  2:{ simpl. intros [= <-]. left. by eapply validate_caller_error. }
  assert (length ps ≤ length fmts) as Hle.
  { destruct (validate_length _ _ _ _ _ _ _ Hlen Hit Hor Hv) as [->|(_ & _ & ->)];
      [done|simpl; lia]. }
  cbn [formats set_params types].
  destruct (types self) as [ts|].
  - destruct (dump_loop tx fmts ps 0 []) as [out r] eqn:Hloop. simpl. intros ->.
    destruct (dump_loop_raise _ _ _ _ _ _ Hloop) as [[_ Hlt]|Hfrom]; [simpl in Hlt; lia|].
    by right.
  - destruct (dump_loop_types tx fmts ps 0 [] []) as [[out tys] r] eqn:Hloop.
    simpl. intros ->.
    destruct (dump_loop_types_raise _ _ _ _ _ _ _ _ Hloop) as [_ [[_ Hlt]|Hfrom]];
      [simpl in Hlt; lia|].
    by right.
Qed.

(** X9 — [convert] with parameters never renews [types] once it is set:
    the types found for the parameters of an earlier query stay, even
    when the new query has other placeholders and the new parameters
    other types. *)
Theorem convert_keeps_types :
  ∀ (self : PostgresQuery) (q : Query) (vars : Params V) ts,
    types self = Some ts →
    types (convert tx self q (Some vars)).1 = Some ts.
Proof.
  intros self q vars ts Hts. unfold convert.
  destruct (_query2pg _ _) as [[[[rq fmts] order] parts]|e0]; [|done].
  by apply dump_keeps_types.
Qed.





(** X11 — A [dump] with parameters needs a [convert] with parameters
    before it.  On an object whose parts were never set it raises
    [AttributeError] and changes nothing; on an object whose [formats]
    is unset, as [convert] without parameters leaves it, it always
    raises, and what it leaves is the object as it was or with [params]
    emptied. *)
Theorem dump_needs_convert :
  ∀ (self : PostgresQuery) (vars : Params V),
    (_parts self = None → dump tx self (Some vars) = (self, Raise AttributeError)) ∧
    (formats self = None →
       ∃ e, (dump tx self (Some vars)).2 = Raise e ∧
            ((dump tx self (Some vars)).1 = self ∨
             (e = AssertionError ∧
              (dump tx self (Some vars)).1 = set_params (Some []) self))) ∧
    (∀ q b, encode_query (rendered q) (encoding tx) = Ok b →
       ∃ e, (dump tx (convert tx self q None).1 (Some vars)).2 = Raise e).
Proof.
  intros self vars.
  assert (∀ s : PostgresQuery, formats s = None →
            ∃ e, (dump tx s (Some vars)).2 = Raise e ∧
                 ((dump tx s (Some vars)).1 = s ∨
                  (e = AssertionError ∧
                   (dump tx s (Some vars)).1 = set_params (Some []) s))) as Hnone.
  { intros s Hf. unfold dump. destruct (_parts s) as [parts|].
    - destruct (_validate_and_reorder_params parts vars (_order s)) as [ps|e].
      + cbn [formats set_params]. rewrite Hf. exists AssertionError. split; [done|].
        right. done.
      + exists e. split; [done|by left].
    - exists AttributeError. split; [done|by left]. }
  split_and!.
  - intros Hp. unfold dump. by rewrite Hp.
  - apply Hnone.
  - intros q b Henc. unfold convert. fold (rendered q). rewrite Henc.
    destruct (Hnone (dump tx {| query := b; params := params self;
                                types := types self; formats := None;
                                _order := None; _parts := _parts self |} None).1)
      as (e & He & _); [done|]. by exists e.
Qed.

End Use.

(** The theorem at a transformer without dumpers: the error of
    [convert("select %s", (1,))] is the dumper's. *)
Lemma convert_raises_only_witness :
  (convert failing_tx init (Plain (Str "select %s")) (Some (PSeq [Some 1%Z]))).2
    = Raise (ExternalError "no dumper") ∧
  (caller_error (ExternalError "no dumper") ∨
   (∃ v fmt, get_dumper failing_tx v fmt = Raise (ExternalError "no dumper")) ∨
   (∃ v fmt d, get_dumper failing_tx v fmt = Ok d ∧
               dumper_dump d v = Raise (ExternalError "no dumper"))).
Proof.
  assert ((convert failing_tx init (Plain (Str "select %s"))
             (Some (PSeq [Some 1%Z]))).2 = Raise (ExternalError "no dumper")) as H
    by by vm_compute.
  split; [exact H|].
  exact (convert_raises_only failing_tx _ _ _ _ H).
Defined.

(** The theorem at the object left by [convert("select %s, %s", (1,
    None))], converted again with [select %(x)b] and [{"x": 5}]: one
    binary parameter, and still the two types of the first query. *)
Lemma convert_keeps_types_witness :
  types (convert example_tx example_session (Plain (Str "select %(x)b"))
           (Some (PMap ({[ "x"%string := Some 5%Z ]} : gmap string (option Z))))).1
    = Some [20; 705]%Z ∧
  params (convert example_tx example_session (Plain (Str "select %(x)b"))
            (Some (PMap ({[ "x"%string := Some 5%Z ]} : gmap string (option Z))))).1
    = Some [Some (B "b5")].
Proof.
  split.
  - apply convert_keeps_types. by vm_compute.
  - by vm_compute.
Defined.


(** The theorem at a fresh object and at the object left by
    [convert("select 1", None)]. *)
Lemma dump_needs_convert_witness :
  dump example_tx init (Some (PSeq [Some 1%Z])) = (init, Raise AttributeError) ∧
  ∃ e, (dump example_tx
          (convert example_tx example_session (Plain (Str "select 1")) None).1
          (Some (PSeq [Some 1%Z; Some 2%Z]))).2 = Raise e.
Proof.
  split.
  - by apply (dump_needs_convert example_tx init (PSeq [Some 1%Z])).
  - apply (dump_needs_convert example_tx example_session
             (PSeq [Some 1%Z; Some 2%Z])) with (b := B "select 1").
    by vm_compute.
Defined.

(** ** Null parameters and failing dumpers *)

Section Nulls.
Context {V : Type} (tx : Transformer V).

Lemma dump_loop_types_nulls fmts : ∀ n i out tys,
  dump_loop_types tx fmts (replicate n None) i out tys
  = (out ++ replicate n None, tys ++ replicate n UNKNOWN_OID, Ok tt).
Proof.
  induction n as [|n IH]; intros i out tys; simpl.
  - by rewrite !app_nil_r.
  - rewrite IH. by rewrite <- !app_assoc.
Qed.

Lemma dump_loop_nulls fmts : ∀ n i out,
  dump_loop tx fmts (replicate n None) i out = (out ++ replicate n None, Ok tt).
Proof.
  induction n as [|n IH]; intros i out; simpl.
  - by rewrite !app_nil_r.
  - rewrite IH. by rewrite <- !app_assoc.
Qed.

Lemma all_None_replicate (ps : list (option V)) :
  Forall (λ p, p = None) ps → ps = replicate (length ps) None.
Proof. induction 1 as [|p ps -> _ IH]; simpl; [done|]. by rewrite <- IH. Qed.

(** X12 — Parameters that are all [None] never reach a dumper nor the
    formats: whatever the transformer, [dump] returns, with one [None]
    per parameter in [params] and, when [types] was unset, one unknown
    type (705) per parameter in [types]. *)
Theorem null_parameters_skip_dumpers :
  ∀ (self : PostgresQuery) (vars : Params V) parts fmts ps,
    _parts self = Some parts → formats self = Some fmts →
    _validate_and_reorder_params parts vars (_order self) = Ok ps →
    Forall (λ p, p = None) ps →
    dump tx self (Some vars)
    = (match types self with
       | Some _ => set_params (Some (replicate (length ps) None)) self
       | None =>
           set_types (Some (replicate (length ps) UNKNOWN_OID))
                     (set_params (Some (replicate (length ps) None)) self)
       end, Ok tt).
Proof.
  intros self vars parts fmts ps Hp Hf Hv Hnull.
  unfold dump. rewrite Hp, Hv. cbn [formats set_params types]. rewrite Hf.
  apply all_None_replicate in Hnull. remember (length ps) as n eqn:Hn.
  rewrite Hnull. clear Hn Hnull Hv.
  destruct (types self).
  - by rewrite dump_loop_nulls.
  - by rewrite dump_loop_types_nulls.
Qed.


End Nulls.

(** The theorem at a transformer without dumpers, after
    [convert("select %s, %s", (None, None))]. *)
Lemma null_parameters_skip_dumpers_witness :
  convert failing_tx init (Plain (Str "select %s, %s")) (Some (PSeq [None; None]))
  = ({| query := B "select $1, $2";
        params := Some [None; None];
        types := Some [705; 705]%Z;
        formats := Some [TEXT; TEXT];
        _order := None;
        _parts := Some [mkQueryPart (B "select ") (ItemInt 0) TEXT;
                        mkQueryPart (B ", ") (ItemInt 1) TEXT; terminal []] |},
     Ok tt).
Proof.
  set (s0 := {| query := B "select $1, $2";
                params := None; types := None;
                formats := Some [TEXT; TEXT];
                _order := None;
                _parts := Some [mkQueryPart (B "select ") (ItemInt 0) TEXT;
                                mkQueryPart (B ", ") (ItemInt 1) TEXT;
                                terminal []] |}).
  assert (convert failing_tx init (Plain (Str "select %s, %s"))
            (Some (PSeq [None; None]))
          = dump failing_tx s0 (Some (PSeq [None; None]))) as -> by by vm_compute.
  by rewrite (null_parameters_skip_dumpers failing_tx s0 (PSeq [None; None])
                [mkQueryPart (B "select ") (ItemInt 0) TEXT;
                 mkQueryPart (B ", ") (ItemInt 1) TEXT; terminal []]
                [TEXT; TEXT] [None; None] eq_refl eq_refl eq_refl
                ltac:(repeat constructor)).
Defined.


(** ** Percents that the pattern does not match *)

Lemma lone_percents_matchless t : lone_percents t = true → matchless t.
Proof.
  unfold matchless. induction t as [|c t IH]; intros Hlone p; [done|].
  simpl in Hlone. apply andb_true_iff in Hlone as [Hc Ht].
  cbn [finditer_from].
  assert (match_at (c :: t) = None) as ->.
  { unfold match_at. destruct (c =? "%"); [|done].
    destruct t as [|c' t']; [done|]. unfold match_named, dot.
    apply Ascii.eqb_eq in Hc as ->. done. }
  by apply IH.
Qed.

(** X14 — After the last placeholder of a written query, a [%] that
    ends the query or stands before a newline raises no error: the
    pattern does not match it and it stays in the terminal part as
    literal text. *)
Theorem lone_percent_is_literal :
  ∀ enc t segs tail,
    Forall (valid_segment enc t) segs →
    lone_percents tail = true →
    _split_query (render segs ++ tail) enc
    = Ok (parts_of enc [] 0 (segs ++ [Lit tail])).
Proof.
  intros enc t segs tail Hvalid Hlone.
  apply (split_query_render_tail enc t); [|done].
  by apply lone_percents_matchless.
Qed.

(** The theorem at the query [%s is 10%], a newline, [of 5%]. *)
Lemma lone_percent_is_literal_witness :
  _split_query (B "%s is 10%" ++ "010" :: B "of 5%") ascii_codec
  = Ok [mkQueryPart [] (ItemInt 0) TEXT;
        terminal (B " is 10%" ++ "010" :: B "of 5%")].
Proof.
  refine (lone_percent_is_literal ascii_codec TyInt [Anon false]
            (B " is 10%" ++ "010" :: B "of 5%") _ _).
  - repeat constructor.
  - by vm_compute.
Defined.

Lemma escape_without_percent (q : bytes) : "%" ∉ q → escape q = q.
Proof.
  induction q as [|c q IH]; intros Hnot; [done|].
  apply not_elem_of_cons in Hnot as [Hc Hnot]. simpl.
  assert ((c =? "%") = false) as -> by (apply Ascii.eqb_neq; congruence).
  by rewrite IH.
Qed.

(** X15 — A query without any [%] goes through [convert] byte for byte,
    with parameters or without.  With the empty sequence, or with any
    mapping, it is rewritten to itself with empty [params] and [formats],
    and with [types] empty when it was unset and left as it was when it
    was set.  Without parameters it is stored as it is, with [params],
    [types] and [formats] unset.  Any non-empty sequence is refused for
    a count of 0 placeholders, [params] and [types] staying as they
    were. *)
Theorem query_without_percent_unchanged :
  ∀ (V : Type) (tx : Transformer V) (self : PostgresQuery) (q : bytes),
    "%" ∉ q →
    _query2pg (Bytes q) (encoding tx) = Ok (q, [], None, [terminal q]) ∧
    convert tx self (Plain (Bytes q)) (Some (PSeq []))
    = ({| query := q; params := Some [];
          types := Some (default [] (types self)); formats := Some [];
          _order := None; _parts := Some [terminal q] |}, Ok tt) ∧
    (∀ kv : gmap string (option V),
       convert tx self (Plain (Bytes q)) (Some (PMap kv))
       = ({| query := q; params := Some [];
             types := Some (default [] (types self)); formats := Some [];
             _order := None; _parts := Some [terminal q] |}, Ok tt)) ∧
    convert tx self (Plain (Bytes q)) None
    = ({| query := q; params := None; types := None; formats := None;
          _order := None; _parts := _parts self |}, Ok tt) ∧
    (∀ xs, xs ≠ [] →
       convert tx self (Plain (Bytes q)) (Some (PSeq xs))
       = ({| query := q; params := params self; types := types self;
             formats := Some []; _order := None;
             _parts := Some [terminal q] |},
          Raise (ProgrammingError (CountMismatch 0 (length xs))))).
Proof.
  intros V tx self q Hnot.
  assert (_query2pg (Bytes q) (encoding tx) = Ok (q, [], None, [terminal q])) as Hq.
  { apply query2pg_terminal.
    pose proof (split_query_escape (encoding tx) q [] matchless_nil) as H.
    by rewrite !app_nil_r, escape_without_percent in H. }
  split_and!.
  - done.
  - unfold convert. rewrite Hq. unfold dump. simpl. by destruct (types self).
  - intros kv. unfold convert. rewrite Hq. unfold dump.
    cbn [_parts _order]. unfold _validate_and_reorder_params.
    rewrite (bool_decide_eq_false_2 (1 < length [terminal q])) by (simpl; lia).
    rewrite andb_false_r. simpl. by destruct (types self).
  - done.
  - intros xs Hxs. unfold convert. rewrite Hq. unfold dump.
    cbn [_parts _order]. unfold _validate_and_reorder_params.
    rewrite bool_decide_eq_true_2; [done|]. destruct xs; [done|]. simpl. lia.
Qed.

(** The theorem at [select 'a', 'b'], on a fresh object and on the
    object left by [convert("select %s, %s", (1, None))], whose two
    types stay. *)
Lemma query_without_percent_unchanged_witness :
  convert example_tx init (Plain (Bytes (B "select 'a', 'b'"))) (Some (PSeq []))
  = ({| query := B "select 'a', 'b'"; params := Some []; types := Some [];
        formats := Some []; _order := None;
        _parts := Some [terminal (B "select 'a', 'b'")] |}, Ok tt) ∧
  convert example_tx example_session (Plain (Bytes (B "select 'a', 'b'")))
          (Some (PSeq []))
  = ({| query := B "select 'a', 'b'"; params := Some [];
        types := Some [20; 705]%Z;
        formats := Some []; _order := None;
        _parts := Some [terminal (B "select 'a', 'b'")] |}, Ok tt).
Proof.
  assert ("%" ∉ B "select 'a', 'b'") as Hnot.
  { intros H. vm_compute in H.
    repeat (apply elem_of_cons in H as [H|H]; [discriminate H|]).
    by apply elem_of_nil in H. }
  split.
  - exact (proj1 (proj2 (query_without_percent_unchanged Z example_tx init
                           (B "select 'a', 'b'") Hnot))).
  - exact (proj1 (proj2 (query_without_percent_unchanged Z example_tx
                           example_session (B "select 'a', 'b'") Hnot))).
Defined.
